(** * requester: the load-generation engine (requester/requester.go)

    A shallow embedding of the package's data and operations, followed by
    the properties of the worker-share computation, of the one-time
    initialisation, of request cloning, of a single request attempt and of
    the run as a whole (controller, workers, reporter) seen as an
    interleaving of goroutine steps. *)

From Stdlib Require Import ZArith Lia Bool String Floats.SpecFloat.
From stdpp Require Import base option list gmap strings.

Open Scope Z_scope.

(** ** Go's [int] and [time.Duration]

    [int] is 64 bits wide on the platforms the tool is built for; a value is
    a [Z] in [min_int, max_int] and every operation wraps around. *)

Definition min_int : Z := - 2 ^ 63.
Definition max_int : Z := 2 ^ 63 - 1.
Definition in_int (z : Z) : Prop := min_int <= z <= max_int.

Definition wrap (z : Z) : Z := (z + 2 ^ 63) mod 2 ^ 64 - 2 ^ 63.
Definition int_add (a b : Z) : Z := wrap (a + b).
Definition int_sub (a b : Z) : Z := wrap (a - b).
Definition int_mul (a b : Z) : Z := wrap (a * b).
(** [a / b] on ints truncates towards zero; the caller rules out [b = 0]. *)
Definition int_quot (a b : Z) : Z := wrap (Z.quot a b).

(** [time.Duration] is an int64 count of nanoseconds. *)
Definition Duration : Type := Z.
Definition Microsecond : Duration := 1000.
Definition Second : Duration := 1000000000.

(** ** float64, for the [QPS] field

    IEEE 754 binary64 values and their division, as specified by the
    Standard Library's [SpecFloat]. *)

Definition float64 : Type := spec_float.
Definition f64_of_Z (z : Z) : float64 := binary_normalize 53 1024 z 0 false.
Definition f64_div (x y : float64) : float64 := SFdiv 53 1024 x y.
Definition f64_ltb (x y : float64) : bool := SFltb x y.
Definition f64_zero : float64 := S754_zero false.

(** The conversion [time.Duration(x)] of a float64: the fraction is
    discarded.  For a NaN, an infinity or a value outside int64 the Go
    specification leaves the result to the implementation; amd64 yields the
    "integer indefinite" value [min_int], which is what is modelled. *)
Definition f64_to_int64 (x : float64) : Z :=
  match x with
  | S754_zero _ => 0
  | S754_finite sgn m e =>
      let a := if 0 <=? e then Z.pos m * 2 ^ e else Z.pos m / 2 ^ (- e) in
      let v := if sgn then - a else a in
      if (min_int <=? v) && (v <=? max_int) then v else min_int
  | _ => min_int
  end.

(** [time.Tick(d)]: the channel of a ticker of period [d], or the nil
    channel when [d <= 0]. *)
Definition time_Tick (d : Duration) : option Duration :=
  if d <=? 0 then None else Some d.

(** ** Data *)

(** Max size of the buffer of result channel. *)
Definition maxResult : Z := 32000000.
Definition maxIdleConn : Z := 500.

Definition min (a b : Z) : Z := if a <? b then a else b.

Definition error : Type := string.

Record result := {
  err : option error;
  statusCode : Z;
  offset : Duration;
  duration : Duration;
  connDuration : Duration;
  dnsDuration : Duration;
  reqDuration : Duration;
  resDuration : Duration;
  delayDuration : Duration;
  contentLength : Z
}.

(** A buffered channel of results: [make(chan *result, cap)]. *)
Record chan := {
  ch_cap : Z;
  ch_buf : list result;
  ch_closed : bool
}.

(** The heap cells a request refers to: body readers (a [bytes.Reader]
    under [ioutil.NopCloser], with its read position) and header maps. *)
Record reader := { rd_data : list Byte.byte; rd_pos : nat }.

Record heap := {
  h_readers : list reader;
  h_headers : list (gmap string (list string))
}.

(** [http.Request], with the fields the package touches; [Header] and
    [Body] are references into the heap ([None] is nil). *)
Record http_Request := {
  Method : string;
  URL : string;
  Host : string;
  Header : option nat;
  Body : option nat
}.

(** Modelled from the spec: the type [report] (report.go) is not among the
    sources.  What the reporter keeps: whether its drain loop was started,
    the results received so far, whether it has signalled [done], and the
    total handed to [finalize]. *)
Record report := {
  rp_running : bool;
  rp_seen : list result;
  rp_done : bool;
  rp_total : option Duration
}.

Module Work.
Record t := mk {
  Request : option http_Request;
  RequestBody : list Byte.byte;
  RequestFunc : option (heap -> option http_Request * heap);
  N : Z;
  C : Z;
  K : bool;
  H2 : bool;
  TLSResume : bool;
  Timeout : Z;
  QPS : float64;
  DisableCompression : bool;
  DisableKeepAlives : bool;
  DisableRedirects : bool;
  Output : string;
  ProxyAddr : option string;
  initOnce : bool;
  results : option chan;
  start : Duration;
  report : option report
}.

Definition set_init (done : bool) (ch : option chan) (b : t) : t :=
  mk (Request b) (RequestBody b) (RequestFunc b) (N b) (C b) (K b) (H2 b)
     (TLSResume b) (Timeout b) (QPS b) (DisableCompression b)
     (DisableKeepAlives b) (DisableRedirects b) (Output b) (ProxyAddr b)
     done ch (start b) (report b).

Definition set_results (ch : option chan) (b : t) : t :=
  set_init (initOnce b) ch b.

Definition set_start (d : Duration) (b : t) : t :=
  mk (Request b) (RequestBody b) (RequestFunc b) (N b) (C b) (K b) (H2 b)
     (TLSResume b) (Timeout b) (QPS b) (DisableCompression b)
     (DisableKeepAlives b) (DisableRedirects b) (Output b) (ProxyAddr b)
     (initOnce b) (results b) d (report b).

Definition set_report r (b : t) : t :=
  mk (Request b) (RequestBody b) (RequestFunc b) (N b) (C b) (K b) (H2 b)
     (TLSResume b) (Timeout b) (QPS b) (DisableCompression b)
     (DisableKeepAlives b) (DisableRedirects b) (Output b) (ProxyAddr b)
     (initOnce b) (results b) (start b) r.
End Work.

(** The transport and the client built by [runWorkers]. *)
Inductive server_name :=
| HostOf (hostport : string).
  (* the host part of [hostport] when net.SplitHostPort succeeds,
     [hostport] itself otherwise *)

Record tls_Config := {
  InsecureSkipVerify : bool;
  ServerName : server_name;
  ClientSessionCache : option Z       (* capacity of the LRU cache, or nil *)
}.

Inductive next_proto :=
| ProtoH2          (* http2.ConfigureTransport(tr) *)
| ProtoNone.       (* TLSNextProto = empty map: no ALPN upgrade *)

Record http_Transport := {
  TLSClientConfig : tls_Config;
  MaxIdleConnsPerHost : Z;
  tr_DisableCompression : bool;
  tr_DisableKeepAlives : bool;
  Proxy : option string;
  TLSNextProto : next_proto
}.

Inductive redirect_policy :=
| FollowRedirects      (* CheckRedirect is nil: the default policy *)
| UseLastResponse.     (* func(...) error { return http.ErrUseLastResponse } *)

Record http_Client := {
  Transport : http_Transport;
  cl_Timeout : Duration;
  CheckRedirect : redirect_policy
}.

Definition set_CheckRedirect (p : redirect_policy) (c : http_Client) : http_Client :=
  {| Transport := Transport c; cl_Timeout := cl_Timeout c; CheckRedirect := p |}.

(** ** Init *)

Inductive outcome (A : Type) :=
| Returns (a : A)
| Panics (a : A) (msg : string).
Arguments Returns {A} a.
Arguments Panics {A} a msg.

Definition make_chan (cap : Z) : option chan :=
  if cap <? 0 then None
  else Some {| ch_cap := cap; ch_buf := []; ch_closed := false |}.

(** [b.initOnce.Do(func() { b.results = make(chan *result, min(b.C*1000, maxResult)) })].
    [sync.Once] marks the call as done even when the function panics. *)
Definition Init (b : Work.t) : outcome Work.t :=
  if Work.initOnce b then Returns b
  else
    match make_chan (min (int_mul (Work.C b) 1000) maxResult) with
    | Some ch => Returns (Work.set_init true (Some ch) b)
    | None => Panics (Work.set_init true (Work.results b) b)
                     "makechan: size out of range"
    end.

Definition state_of {A} (o : outcome A) : A :=
  match o with Returns a => a | Panics a _ => a end.

Definition panicked {A} (o : outcome A) : bool :=
  match o with Returns _ => false | Panics _ _ => true end.

(** [k] calls of [Init] in a row, stopping at a panic. *)
Fixpoint Init_times (k : nat) (b : Work.t) : outcome Work.t :=
  match k with
  | O => Returns b
  | S k' =>
      match Init b with
      | Returns b' => Init_times k' b'
      | Panics b' msg => Panics b' msg
      end
  end.

(** The number of channels [k] calls of [Init] create. *)
Fixpoint Init_makes (k : nat) (b : Work.t) : nat :=
  match k with
  | O => O
  | S k' =>
      match Init b with
      | Returns b' =>
          ((if Work.initOnce b then 0 else 1) + Init_makes k' b')%nat
      | Panics _ _ => O
      end
  end.

(** ** cloneRequest *)

Definition header_at (h : heap) (l : option nat) : gmap string (list string) :=
  match l with
  | Some a => default ∅ (h_headers h !! a)
  | None => ∅
  end.

Definition alloc_header (m : gmap string (list string)) (h : heap) : nat * heap :=
  (length (h_headers h),
   {| h_readers := h_readers h; h_headers := h_headers h ++ [m] |}).

Definition alloc_reader (r : reader) (h : heap) : nat * heap :=
  (length (h_readers h),
   {| h_readers := h_readers h ++ [r]; h_headers := h_headers h |}).

(** [bytes.NewReader(body)] *)
Definition NewReader (body : list Byte.byte) : reader :=
  {| rd_data := body; rd_pos := 0 |}.

Definition cloneRequest (r : http_Request) (body : list Byte.byte) (h : heap)
  : http_Request * heap :=
  (* shallow copy of the struct, deep copy of the Header *)
  let m2 := map_fold (fun k s (acc : gmap string (list string)) =>
                        <[k := [] ++ s]> acc) ∅ (header_at h (Header r)) in
  let '(hl, h1) := alloc_header m2 h in
  let r2 := {| Method := Method r; URL := URL r; Host := Host r;
               Header := Some hl; Body := Body r |} in
  if (0 <? length body)%nat then
    let '(bl, h2) := alloc_reader (NewReader body) h1 in
    ({| Method := Method r2; URL := URL r2; Host := Host r2;
        Header := Header r2; Body := Some bl |}, h2)
  else (r2, h1).

(** Reading [k] bytes through a body reference advances the reader it
    points to. *)
Definition read_body (l : nat) (k : nat) (h : heap) : list Byte.byte * heap :=
  match h_readers h !! l with
  | Some rd =>
      let rest := drop (rd_pos rd) (rd_data rd) in
      let got := take k rest in
      (got,
       {| h_readers := <[l := {| rd_data := rd_data rd;
                                 rd_pos := rd_pos rd + length got |}]> (h_readers h);
          h_headers := h_headers h |})
  | None => ([], h)
  end.

(** ** makeRequest

    One attempt.  What the client and the network do during [c.Do(req)] is
    given from outside: the httptrace hooks that fire, each with the clock
    readings of its calls to [now()], and the response or the error. *)

Inductive trace_event :=
| DNSStart (t : Duration)
| DNSDone (t : Duration)
| GetConn (t : Duration)
| GotConn (Reused : bool) (t1 t2 : Duration)
| WroteRequest (t : Duration)
| GotFirstResponseByte (t : Duration).

(** The duration variables the hooks of one attempt write. *)
Record locals := {
  dnsStart : Duration;
  connStart : Duration;
  resStart : Duration;
  reqStart : Duration;
  delayStart : Duration;
  v_dnsDuration : Duration;
  v_connDuration : Duration;
  v_reqDuration : Duration;
  v_delayDuration : Duration
}.

Definition zero_locals : locals :=
  {| dnsStart := 0; connStart := 0; resStart := 0; reqStart := 0;
     delayStart := 0; v_dnsDuration := 0; v_connDuration := 0;
     v_reqDuration := 0; v_delayDuration := 0 |}.

Definition fire (v : locals) (e : trace_event) : locals :=
  match e with
  | DNSStart t =>
      {| dnsStart := t; connStart := connStart v; resStart := resStart v;
         reqStart := reqStart v; delayStart := delayStart v;
         v_dnsDuration := v_dnsDuration v; v_connDuration := v_connDuration v;
         v_reqDuration := v_reqDuration v; v_delayDuration := v_delayDuration v |}
  | DNSDone t =>
      {| dnsStart := dnsStart v; connStart := connStart v; resStart := resStart v;
         reqStart := reqStart v; delayStart := delayStart v;
         v_dnsDuration := int_sub t (dnsStart v);
         v_connDuration := v_connDuration v;
         v_reqDuration := v_reqDuration v; v_delayDuration := v_delayDuration v |}
  | GetConn t =>
      {| dnsStart := dnsStart v; connStart := t; resStart := resStart v;
         reqStart := reqStart v; delayStart := delayStart v;
         v_dnsDuration := v_dnsDuration v; v_connDuration := v_connDuration v;
         v_reqDuration := v_reqDuration v; v_delayDuration := v_delayDuration v |}
  | GotConn reused t1 t2 =>
      {| dnsStart := dnsStart v; connStart := connStart v; resStart := resStart v;
         reqStart := t2; delayStart := delayStart v;
         v_dnsDuration := v_dnsDuration v;
         v_connDuration := if reused then v_connDuration v
                           else int_sub t1 (connStart v);
         v_reqDuration := v_reqDuration v; v_delayDuration := v_delayDuration v |}
  | WroteRequest t =>
      {| dnsStart := dnsStart v; connStart := connStart v; resStart := resStart v;
         reqStart := reqStart v; delayStart := t;
         v_dnsDuration := v_dnsDuration v; v_connDuration := v_connDuration v;
         v_reqDuration := int_sub t (reqStart v);
         v_delayDuration := v_delayDuration v |}
  | GotFirstResponseByte t =>
      {| dnsStart := dnsStart v; connStart := connStart v; resStart := t;
         reqStart := reqStart v; delayStart := delayStart v;
         v_dnsDuration := v_dnsDuration v; v_connDuration := v_connDuration v;
         v_reqDuration := v_reqDuration v;
         v_delayDuration := int_sub t (delayStart v) |}
  end.

(** [resp, err := c.Do(req)], and for a response the number of bytes
    [io.Copy(ioutil.Discard, resp.Body)] drained. *)
Inductive response :=
| Resp (StatusCode : Z) (copied : Z)
| Fail (e : error).

(** The request of one attempt: [b.RequestFunc()] or a clone of the
    template.  [None] is the nil-pointer panic of a nil template or of a
    nil request returned by the function. *)
Definition new_request (b : Work.t) (h : heap) : option (http_Request * heap) :=
  match Work.RequestFunc b with
  | Some f =>
      match f h with
      | (Some r, h') => Some (r, h')
      | (None, _) => None
      end
  | None =>
      match Work.Request b with
      | Some r => Some (cloneRequest r (Work.RequestBody b) h)
      | None => None
      end
  end.

(** The result built after [c.Do] has returned: [s] and [t] are the
    readings of [now()] before and after. *)
Definition makeRequest_result (s : Duration) (evs : list trace_event)
    (resp : response) (t : Duration) : result :=
  let v := foldl fire zero_locals evs in
  let code := match resp with Resp c _ => c | Fail _ => 0 end in
  let size := match resp with Resp _ n => n | Fail _ => 0 end in
  let resDur := int_sub t (resStart v) in
  let finish := int_sub t s in
  {| err := match resp with Resp _ _ => None | Fail e => Some e end;
     statusCode := code;
     offset := s;
     duration := finish;
     connDuration := v_connDuration v;
     dnsDuration := v_dnsDuration v;
     reqDuration := v_reqDuration v;
     resDuration := resDur;
     delayDuration := v_delayDuration v;
     contentLength := size |}.

(** ** runWorker: the throttle *)

(** [time.Tick(time.Duration(1e6/(b.QPS)) * time.Microsecond)] when
    [b.QPS > 0], the nil channel otherwise. *)
Definition throttle_period (qps : float64) : Duration :=
  int_mul (f64_to_int64 (f64_div (f64_of_Z 1000000) qps)) Microsecond.

Definition new_throttle (b : Work.t) : option Duration :=
  if f64_ltb f64_zero (Work.QPS b) then time_Tick (throttle_period (Work.QPS b))
  else None.

(** ** runWorkers: the client and the shares *)

Definition new_client (b : Work.t) (r : http_Request) : http_Client :=
  {| Transport :=
       {| TLSClientConfig :=
            {| InsecureSkipVerify := Work.K b;
               ServerName := HostOf (Host r);
               ClientSessionCache := if Work.TLSResume b then Some 1 else None |};
          MaxIdleConnsPerHost := min (Work.C b) maxIdleConn;
          tr_DisableCompression := Work.DisableCompression b;
          tr_DisableKeepAlives := Work.DisableKeepAlives b;
          Proxy := Work.ProxyAddr b;
          TLSNextProto := if Work.H2 b then ProtoH2 else ProtoNone |};
     cl_Timeout := int_mul (Work.Timeout b) Second;
     CheckRedirect := FollowRedirects |}.

(** The loop that hands out the shares: [fuel] bounds the number of
    iterations, the guard [i < b.C-1] ends it.  The result is the list of
    the shares of workers [0 .. C-2] and what is left for the last one. *)
Fixpoint spawn_loop (fuel : nat) (C i left : Z) : list Z * Z :=
  match fuel with
  | O => ([], left)
  | S fuel' =>
      if i <? int_sub C 1 then
        let n := int_quot left (int_sub C i) in
        let left' := int_sub left n in
        let '(ns, last) := spawn_loop fuel' C (int_add i 1) left' in
        (n :: ns, last)
      else ([], left)
  end.

Definition shares (N C : Z) : list Z :=
  let '(ns, last) := spawn_loop (Z.to_nat C) C 0 N in ns ++ [last].

Definition zsum (l : list Z) : Z := foldr Z.add 0 l.

(** ** The run as a system of goroutines

    [Run] is the controller goroutine; it starts the reporter and, in
    [runWorkers], one goroutine per worker.  A step of the system is a step
    of one goroutine, the arrival of a response, the cancellation of the
    caller's context, or the passing of time.  The spinner and the terminal
    escapes of [Run] are left out. *)

(** Where a worker goroutine stands in [runWorker] / [makeRequest]. *)
Inductive wpc :=
| WEntry                                (* creating the throttle *)
| WRedirect                             (* the DisableRedirects test *)
| WLoop                                 (* loop guard, then the select *)
| WGate                                 (* default branch: <-throttle *)
| WCall                                 (* entering makeRequest *)
| WDo (req : http_Request) (s : Duration)   (* inside c.Do(req) *)
| WSend (r : result)                    (* b.results <- r *)
| WReturned                             (* runWorker returned: wg.Done() *)
| WExit.                                (* the goroutine has ended *)

Record worker := {
  w_n : Z;                         (* the share: runWorker's n *)
  w_i : Z;                         (* the loop counter *)
  w_throttle : option Duration;    (* the ticker's period, or nil *)
  w_pc : wpc
}.

(** Where the controller stands in [Run], [runWorkers] and [finish]. *)
Inductive cpc :=
| CInit                      (* b.Init() *)
| CStart                     (* b.start = now() *)
| CReport                    (* b.report = newReport(...); go runReporter *)
| CAdd                       (* wg.Add(b.C) *)
| CClient                    (* hostName, tlsCache, tr, client *)
| CSpawn (i left : Z)        (* guard of the spawn loop / the last go *)
| CWait                      (* wg.Wait() *)
| CCancel                    (* cancel() of the spinner's context *)
| CClose                     (* finish: close(b.results) *)
| CTotal                     (* total := now() - b.start *)
| CAwait (total : Duration)      (* <-b.report.done *)
| CFinalize (total : Duration)   (* b.report.finalize(total) *)
| CEnd.

Record state := {
  st_b : Work.t;
  st_ctl : cpc;
  st_ctx_done : bool;              (* ctx.Done() is closed *)
  st_now : Duration;               (* what now() returns *)
  st_heap : heap;
  st_client : option http_Client;  (* the shared *http.Client *)
  st_wg : Z;                       (* the WaitGroup counter *)
  st_pool : list worker;           (* the worker goroutines, in spawn order *)
  st_crashed : bool                (* a goroutine has panicked *)
}.

Definition with_b (b : Work.t) (s : state) : state :=
  {| st_b := b; st_ctl := st_ctl s; st_ctx_done := st_ctx_done s;
     st_now := st_now s; st_heap := st_heap s; st_client := st_client s;
     st_wg := st_wg s; st_pool := st_pool s; st_crashed := st_crashed s |}.

Definition with_ctl (c : cpc) (s : state) : state :=
  {| st_b := st_b s; st_ctl := c; st_ctx_done := st_ctx_done s;
     st_now := st_now s; st_heap := st_heap s; st_client := st_client s;
     st_wg := st_wg s; st_pool := st_pool s; st_crashed := st_crashed s |}.

Definition with_ctx_done (s : state) : state :=
  {| st_b := st_b s; st_ctl := st_ctl s; st_ctx_done := true;
     st_now := st_now s; st_heap := st_heap s; st_client := st_client s;
     st_wg := st_wg s; st_pool := st_pool s; st_crashed := st_crashed s |}.

Definition with_now (t : Duration) (s : state) : state :=
  {| st_b := st_b s; st_ctl := st_ctl s; st_ctx_done := st_ctx_done s;
     st_now := t; st_heap := st_heap s; st_client := st_client s;
     st_wg := st_wg s; st_pool := st_pool s; st_crashed := st_crashed s |}.

Definition with_heap (h : heap) (s : state) : state :=
  {| st_b := st_b s; st_ctl := st_ctl s; st_ctx_done := st_ctx_done s;
     st_now := st_now s; st_heap := h; st_client := st_client s;
     st_wg := st_wg s; st_pool := st_pool s; st_crashed := st_crashed s |}.

Definition with_client (c : option http_Client) (s : state) : state :=
  {| st_b := st_b s; st_ctl := st_ctl s; st_ctx_done := st_ctx_done s;
     st_now := st_now s; st_heap := st_heap s; st_client := c;
     st_wg := st_wg s; st_pool := st_pool s; st_crashed := st_crashed s |}.

Definition with_wg (n : Z) (s : state) : state :=
  {| st_b := st_b s; st_ctl := st_ctl s; st_ctx_done := st_ctx_done s;
     st_now := st_now s; st_heap := st_heap s; st_client := st_client s;
     st_wg := n; st_pool := st_pool s; st_crashed := st_crashed s |}.

Definition with_pool (p : list worker) (s : state) : state :=
  {| st_b := st_b s; st_ctl := st_ctl s; st_ctx_done := st_ctx_done s;
     st_now := st_now s; st_heap := st_heap s; st_client := st_client s;
     st_wg := st_wg s; st_pool := p; st_crashed := st_crashed s |}.

Definition crash (s : state) : state :=
  {| st_b := st_b s; st_ctl := st_ctl s; st_ctx_done := st_ctx_done s;
     st_now := st_now s; st_heap := st_heap s; st_client := st_client s;
     st_wg := st_wg s; st_pool := st_pool s; st_crashed := true |}.

Definition with_pc (pc : wpc) (wk : worker) : worker :=
  {| w_n := w_n wk; w_i := w_i wk; w_throttle := w_throttle wk; w_pc := pc |}.

Definition new_worker (n : Z) : worker :=
  {| w_n := n; w_i := 0; w_throttle := None; w_pc := WEntry |}.

(** What a step does, as seen from outside. *)
Inductive event :=
| EvInit
| EvStart (t : Duration)
| EvReport
| EvAdd
| EvClient
| EvSpawn (w : nat) (n : Z)
| EvWaited                          (* wg.Wait() has returned *)
| EvCancelSpinner
| EvClose                           (* close(b.results) *)
| EvTotal (d : Duration)
| EvAwaited                         (* <-b.report.done has returned *)
| EvFinalize (d : Duration)
| EvThrottle (w : nat) (th : option Duration)
| EvKeepRedirects (w : nat)
| EvSetCheckRedirect (w : nat)      (* client.CheckRedirect = ... *)
| EvReturn (w : nat) (cancelled : bool)   (* runWorker returns *)
| EvProceed (w : nat)               (* the select took its default branch *)
| EvTick (w : nat)                  (* <-throttle has returned *)
| EvRequest (w : nat) (s : Duration)      (* makeRequest: s := now(); c.Do *)
| EvResponse (w : nat)              (* c.Do has returned *)
| EvResult (w : nat) (r : result)   (* the send on b.results *)
| EvDone (w : nat)                  (* wg.Done() *)
| EvReceive (r : result)
| EvReporterDone
| EvCtxCancel
| EvClock
| EvPanic (msg : string).

Definition panic (msg : string) (s : state) : option (event * state) :=
  Some (EvPanic msg, crash s).

Definition close_chan (ch : chan) : chan :=
  {| ch_cap := ch_cap ch; ch_buf := ch_buf ch; ch_closed := true |}.

Definition push_chan (r : result) (ch : chan) : chan :=
  {| ch_cap := ch_cap ch; ch_buf := ch_buf ch ++ [r]; ch_closed := ch_closed ch |}.

Definition pop_chan (ch : chan) : chan :=
  {| ch_cap := ch_cap ch; ch_buf := tail (ch_buf ch); ch_closed := ch_closed ch |}.

(** Modelled from the spec: [newReport] and [runReporter] (report.go) are
    not among the sources.  [newReport(b.writer(), b.results, b.Output, b.N)]
    followed by [go runReporter(b.report)]: the reporter's drain loop runs
    before any request is sent. *)
Definition newReport : report :=
  {| rp_running := true; rp_seen := []; rp_done := false; rp_total := None |}.

Definition controller_step (s : state) : option (event * state) :=
  let b := st_b s in
  match st_ctl s with
  | CInit =>
      match Init b with
      | Returns b' => Some (EvInit, with_ctl CStart (with_b b' s))
      | Panics b' msg => panic msg (with_b b' s)
      end
  | CStart =>
      Some (EvStart (st_now s),
            with_ctl CReport (with_b (Work.set_start (st_now s) b) s))
  | CReport =>
      Some (EvReport,
            with_ctl CAdd (with_b (Work.set_report (Some newReport) b) s))
  | CAdd =>
      let v := st_wg s + Work.C b in
      if v <? 0 then panic "sync: negative WaitGroup counter" s
      else Some (EvAdd, with_ctl CClient (with_wg v s))
  | CClient =>
      match Work.Request b with
      | None => panic "nil pointer dereference" s
      | Some r =>
          Some (EvClient,
                with_ctl (CSpawn 0 (Work.N b))
                         (with_client (Some (new_client b r)) s))
      end
  | CSpawn i lft =>
      if i <? int_sub (Work.C b) 1 then
        let d := int_sub (Work.C b) i in
        if d =? 0 then panic "integer divide by zero" s
        else
          let n := int_quot lft d in
          Some (EvSpawn (length (st_pool s)) n,
                with_ctl (CSpawn (int_add i 1) (int_sub lft n))
                         (with_pool (st_pool s ++ [new_worker n]) s))
      else
        Some (EvSpawn (length (st_pool s)) lft,
              with_ctl CWait (with_pool (st_pool s ++ [new_worker lft]) s))
  | CWait =>
      if st_wg s =? 0 then Some (EvWaited, with_ctl CCancel s) else None
  | CCancel => Some (EvCancelSpinner, with_ctl CClose s)
  | CClose =>
      match Work.results b with
      | None => panic "close of nil channel" s
      | Some ch =>
          if ch_closed ch then panic "close of closed channel" s
          else Some (EvClose,
                     with_ctl CTotal
                       (with_b (Work.set_results (Some (close_chan ch)) b) s))
      end
  | CTotal =>
      let total := int_sub (st_now s) (Work.start b) in
      Some (EvTotal total, with_ctl (CAwait total) s)
  | CAwait total =>
      match Work.report b with
      | None => panic "nil pointer dereference" s
      | Some rp =>
          if rp_done rp then Some (EvAwaited, with_ctl (CFinalize total) s)
          else None
      end
  | CFinalize total =>
      match Work.report b with
      | None => panic "nil pointer dereference" s
      | Some rp =>
          Some (EvFinalize total,
                with_ctl CEnd
                  (with_b (Work.set_report
                             (Some {| rp_running := rp_running rp;
                                      rp_seen := rp_seen rp;
                                      rp_done := rp_done rp;
                                      rp_total := Some total |}) b) s))
      end
  | CEnd => None
  end.

Definition set_worker (w : nat) (wk : worker) (s : state) : state :=
  with_pool (<[w := wk]> (st_pool s)) s.

(** After the send: [i++] and back to the loop guard. *)
Definition next_iteration (wk : worker) : worker :=
  {| w_n := w_n wk; w_i := int_add (w_i wk) 1; w_throttle := w_throttle wk;
     w_pc := WLoop |}.

Definition receiving (b : Work.t) : bool :=
  match Work.report b with
  | Some rp => rp_running rp && negb (rp_done rp)
  | None => false
  end.

Definition saw (r : result) (rp : report) : report :=
  {| rp_running := rp_running rp; rp_seen := rp_seen rp ++ [r];
     rp_done := rp_done rp; rp_total := rp_total rp |}.

(** [b.results <- r]: into the buffer when there is room; handed to the
    receiver when the channel has no buffer and the reporter is receiving;
    blocked otherwise. *)
Definition send_step (w : nat) (wk : worker) (r : result) (s : state)
  : option (event * state) :=
  let b := st_b s in
  match Work.results b with
  | None => None
  | Some ch =>
      if ch_closed ch then panic "send on closed channel" s
      else if Z.of_nat (length (ch_buf ch)) <? ch_cap ch then
        Some (EvResult w r,
              set_worker w (next_iteration wk)
                (with_b (Work.set_results (Some (push_chan r ch)) b) s))
      else if (ch_cap ch =? 0) && receiving b then
        Some (EvResult w r,
              set_worker w (next_iteration wk)
                (with_b (Work.set_report (saw r <$> Work.report b) b) s))
      else None
  end.

Definition worker_step (w : nat) (s : state) : option (event * state) :=
  let b := st_b s in
  match st_pool s !! w with
  | None => None
  | Some wk =>
      match w_pc wk with
      | WEntry =>
          let th := new_throttle b in
          Some (EvThrottle w th,
                set_worker w {| w_n := w_n wk; w_i := w_i wk;
                                w_throttle := th; w_pc := WRedirect |} s)
      | WRedirect =>
          if Work.DisableRedirects b then
            match st_client s with
            | Some c =>
                Some (EvSetCheckRedirect w,
                      set_worker w (with_pc WLoop wk)
                        (with_client (Some (set_CheckRedirect UseLastResponse c)) s))
            | None => None
            end
          else Some (EvKeepRedirects w, set_worker w (with_pc WLoop wk) s)
      | WLoop =>
          if w_i wk <? w_n wk then
            (* Check if application is stopped. *)
            if st_ctx_done s then
              Some (EvReturn w true, set_worker w (with_pc WReturned wk) s)
            else if f64_ltb f64_zero (Work.QPS b) then
              Some (EvProceed w, set_worker w (with_pc WGate wk) s)
            else
              Some (EvProceed w, set_worker w (with_pc WCall wk) s)
          else Some (EvReturn w false, set_worker w (with_pc WReturned wk) s)
      | WGate =>
          match w_throttle wk with
          | Some _ => Some (EvTick w, set_worker w (with_pc WCall wk) s)
          | None => None        (* a receive from a nil channel never returns *)
          end
      | WCall =>
          match new_request b (st_heap s) with
          | Some (req, h') =>
              Some (EvRequest w (st_now s),
                    set_worker w (with_pc (WDo req (st_now s)) wk) (with_heap h' s))
          | None => panic "nil pointer dereference" s
          end
      | WDo _ _ => None          (* until the response is there *)
      | WSend r => send_step w wk r s
      | WReturned =>
          let v := st_wg s - 1 in
          if v <? 0 then panic "sync: negative WaitGroup counter" s
          else Some (EvDone w, set_worker w (with_pc WExit wk) (with_wg v s))
      | WExit => None
      end
  end.

(** [c.Do(req)] returns in worker [w], after the hooks [evs] have fired,
    with [resp]; the worker reads [now()] and builds the result. *)
Definition network_step (w : nat) (evs : list trace_event) (resp : response)
    (s : state) : option (event * state) :=
  match st_pool s !! w with
  | Some wk =>
      match w_pc wk with
      | WDo _ s0 =>
          Some (EvResponse w,
                set_worker w
                  (with_pc (WSend (makeRequest_result s0 evs resp (st_now s))) wk) s)
      | _ => None
      end
  | None => None
  end.

(** Modelled from the spec: [runReporter] (report.go) is not among the
    sources.  The reporter drains the sink until it is closed, then sets
    its completion signal. *)
Definition reporter_step (s : state) : option (event * state) :=
  let b := st_b s in
  match Work.report b, Work.results b with
  | Some rp, Some ch =>
      if rp_running rp && negb (rp_done rp) then
        match ch_buf ch with
        | r :: _ =>
            Some (EvReceive r,
                  with_b (Work.set_report (Some (saw r rp))
                            (Work.set_results (Some (pop_chan ch)) b)) s)
        | [] =>
            if ch_closed ch then
              Some (EvReporterDone,
                    with_b (Work.set_report
                              (Some {| rp_running := rp_running rp;
                                       rp_seen := rp_seen rp;
                                       rp_done := true;
                                       rp_total := rp_total rp |}) b) s)
            else None
        end
      else None
  | _, _ => None
  end.

Inductive action :=
| Controller
| Worker (w : nat)
| Network (w : nat) (evs : list trace_event) (resp : response)
| Reporter
| CtxCancel
| Clock (dt : Duration).

Definition step (a : action) (s : state) : option (event * state) :=
  if st_crashed s then None
  else
    match a with
    | Controller => controller_step s
    | Worker w => worker_step w s
    | Network w evs resp => network_step w evs resp s
    | Reporter => reporter_step s
    | CtxCancel => Some (EvCtxCancel, with_ctx_done s)
    | Clock dt =>
        if 0 <=? dt then Some (EvClock, with_now (int_add (st_now s) dt) s)
        else None
    end.

(** The execution of a schedule. *)
Fixpoint run (acts : list action) (s : state) : option (list event * state) :=
  match acts with
  | [] => Some ([], s)
  | a :: rest =>
      match step a s with
      | Some (e, s') =>
          match run rest s' with
          | Some (tr, s'') => Some (e :: tr, s'')
          | None => None
          end
      | None => None
      end
  end.

(** The state in which [Run] is called on [b]. *)
Definition initial (b : Work.t) (t0 : Duration) (h : heap) : state :=
  {| st_b := b; st_ctl := CInit; st_ctx_done := false; st_now := t0;
     st_heap := h; st_client := None; st_wg := 0; st_pool := [];
     st_crashed := false |}.

(** A [Work] as its users build it: the unexported fields are zero. *)
Definition fresh (b : Work.t) : Prop :=
  Work.initOnce b = false /\ Work.results b = None /\ Work.report b = None.

(** The states and traces a run from [s0] goes through. *)
Inductive reaches (s0 : state) : list event -> state -> Prop :=
| reaches_start : reaches s0 [] s0
| reaches_step tr s a e s' :
    reaches s0 tr s -> step a s = Some (e, s') -> reaches s0 (tr ++ [e]) s'.

(** ** The job description

    The exported fields of a [Work] are not written during a run. *)

(** The exported fields: [b] with its unexported fields zeroed. *)
Definition job_of (b : Work.t) : Work.t :=
  Work.set_init false None (Work.set_start 0 (Work.set_report None b)).


(** ** Counting over the pool and over the trace *)

Definition tally {A} (f : A -> Z) (l : list A) : Z := zsum (f <$> l).

Definition pending (wk : worker) : Z :=
  match w_pc wk with WExit => 0 | _ => 1 end.

Definition returned (wk : worker) : bool :=
  match w_pc wk with WReturned | WExit => true | _ => false end.

Definition in_flight (wk : worker) : bool :=
  match w_pc wk with WDo _ _ | WSend _ => true | _ => false end.

Definition in_iteration (wk : worker) : bool :=
  match w_pc wk with WGate | WCall | WDo _ _ | WSend _ => true | _ => false end.

(** The calls of makeRequest a worker has made. *)
Definition started (wk : worker) : Z :=
  w_i wk + (if in_flight wk then 1 else 0).

Definition is_result (e : event) : Z :=
  match e with EvResult _ _ => 1 | _ => 0 end.
Definition is_request (e : event) : Z :=
  match e with EvRequest _ _ => 1 | _ => 0 end.
Definition is_close (e : event) : Z :=
  match e with EvClose => 1 | _ => 0 end.

(** Phases of the controller. *)
Definition spawned (C : Z) (c : cpc) : Z :=
  match c with
  | CInit | CStart | CReport | CAdd | CClient => 0
  | CSpawn i _ => i
  | _ => C
  end.

Definition undistributed (N : Z) (c : cpc) : Z :=
  match c with
  | CInit | CStart | CReport | CAdd | CClient => N
  | CSpawn _ lft => lft
  | _ => 0
  end.

Definition added (c : cpc) : bool :=
  match c with CInit | CStart | CReport | CAdd => false | _ => true end.

Definition reported (c : cpc) : bool :=
  match c with CInit | CStart | CReport => false | _ => true end.

Definition has_client (c : cpc) : bool :=
  match c with CInit | CStart | CReport | CAdd | CClient => false | _ => true end.

Definition past_wait (c : cpc) : bool :=
  match c with
  | CCancel | CClose | CTotal | CAwait _ | CFinalize _ | CEnd => true
  | _ => false
  end.

Definition closed_phase (c : cpc) : bool :=
  match c with CTotal | CAwait _ | CFinalize _ | CEnd => true | _ => false end.

Definition wf_worker (wk : worker) : Prop :=
  0 <= w_i wk <= w_n wk /\ w_n wk <= max_int /\
  (in_iteration wk = true -> w_i wk < w_n wk).

Definition buffered (b : Work.t) : list result :=
  match Work.results b with Some ch => ch_buf ch | None => [] end.

Definition seen (b : Work.t) : list result :=
  match Work.report b with Some rp => rp_seen rp | None => [] end.

(** What holds of every state of a run of a fresh [b0], after the trace
    [tr]. *)
Record Inv (b0 : Work.t) (tr : list event) (s : state) : Prop := {
  inv_job : job_of (st_b s) = job_of b0;
  inv_fresh : st_crashed s = false -> st_ctl s = CInit ->
              Work.initOnce (st_b s) = false;
  inv_len : Z.of_nat (length (st_pool s)) = spawned (Work.C b0) (st_ctl s);
  inv_sum : tally w_n (st_pool s) + undistributed (Work.N b0) (st_ctl s) = Work.N b0;
  inv_spawn : match st_ctl s with
              | CSpawn i lft => 0 <= i <= Work.C b0 - 1 /\ 0 <= lft
              | _ => True
              end;
  inv_wg : st_wg s = if added (st_ctl s)
                     then Work.C b0 - spawned (Work.C b0) (st_ctl s)
                          + tally pending (st_pool s)
                     else 0;
  inv_waited : past_wait (st_ctl s) = true -> tally pending (st_pool s) = 0;
  inv_workers : Forall wf_worker (st_pool s);
  inv_nocancel : st_ctx_done s = false ->
                 Forall (fun wk => returned wk = true -> w_i wk = w_n wk) (st_pool s);
  inv_chan : match Work.results (st_b s) with
             | None => st_ctl s = CInit
             | Some ch => st_ctl s <> CInit /\ 0 <= ch_cap ch /\
                          ch_closed ch = closed_phase (st_ctl s)
             end;
  inv_report : match Work.report (st_b s) with
               | None => reported (st_ctl s) = false
               | Some rp => reported (st_ctl s) = true /\ rp_running rp = true /\
                            (rp_done rp = true ->
                             closed_phase (st_ctl s) = true /\ buffered (st_b s) = [])
               end;
  inv_client : has_client (st_ctl s) = true -> is_Some (st_client s);
  inv_results : tally is_result tr = tally w_i (st_pool s);
  inv_requests : tally is_request tr = tally started (st_pool s);
  inv_delivered : tally is_result tr =
                  Z.of_nat (length (seen (st_b s))) + Z.of_nat (length (buffered (st_b s)));
  inv_close : tally is_close tr = if closed_phase (st_ctl s) then 1 else 0;
  inv_returns : forall w wk, st_pool s !! w = Some wk -> returned wk = true ->
                exists c, EvReturn w c ∈ tr;
  inv_cancel : st_ctx_done s = true <-> EvCtxCancel ∈ tr
}.


(** ** What a trace shows *)

(** The results pushed onto the channel, in order. *)
Definition pushed (tr : list event) : list result :=
  omap (fun e => match e with EvResult _ r => Some r | _ => None end) tr.

(** The reading of [now()] in worker [w]'s latest call of makeRequest. *)
Definition last_request (w : nat) (tr : list event) : option Duration :=
  foldl (fun acc e =>
           match e with
           | EvRequest w' s => if decide (w' = w) then Some s else acc
           | _ => acc
           end) None tr.

(** The reading of [now()] that [Run] stored in [b.start]. *)
Definition run_start (tr : list event) : option Duration :=
  foldl (fun acc e => match e with EvStart t => Some t | _ => acc end) None tr.

Definition flying (wk : worker) : Z := if in_flight wk then 1 else 0.

Definition awaited (c : cpc) : bool :=
  match c with CFinalize _ | CEnd => true | _ => false end.



(** ** A small job, to run the model on *)

Definition empty_heap : heap := {| h_readers := []; h_headers := [] |}.

Definition demo_request : http_Request :=
  {| Method := "GET"; URL := "http://localhost:8080/"; Host := "localhost:8080";
     Header := None; Body := None |}.

(** [n] requests, [c] workers, [q] queries per second. *)
Definition demo_job (n c : Z) (q : float64) (noredirect : bool) : Work.t :=
  Work.mk (Some demo_request) [] None n c false false false 20 q
          false false noredirect "" None false None 0 None.

(** [Run] up to [wg.Wait()], for one worker: Init, start, report, Add,
    client, and the last go statement. *)
Definition sched_spawn_one : list action :=
  [Controller; Controller; Controller; Controller; Controller; Controller].

(** One request of worker 0 without a throttle, answered by [resp] after
    [dt] nanoseconds, and its receipt by the reporter. *)
Definition sched_request (dt : Duration) (resp : response) : list action :=
  [Worker 0; Worker 0; Clock dt; Network 0 [] resp; Worker 0; Reporter].

(** Worker 0 leaves its loop; the controller closes and finalizes. *)
Definition sched_finish : list action :=
  [Worker 0; Worker 0; Controller; Controller; Controller; Controller;
   Reporter; Controller; Controller].

(** A whole run of one request by one worker, [Run] being called when
    [now()] reads 5. *)
Definition sched_one (resp : response) : list action :=
  sched_spawn_one ++ [Worker 0; Worker 0] ++ sched_request 2 resp ++ sched_finish.

(** The trace and the final state of a schedule (of the longest prefix
    that can run, were it to block). *)
Definition run_trace (acts : list action) (s : state) : list event :=
  match run acts s with Some (tr, _) => tr | None => [] end.

Definition run_state (acts : list action) (s : state) : state :=
  match run acts s with Some (_, s') => s' | None => s end.

(** ** Two claims as they are written, to be refuted *)

(** The sentence on the shared client as it is written: once the client
    exists, no step changes it. *)
Definition client_never_mutated : Prop :=
  forall b t0 h tr s a e s' c,
    fresh b -> reaches (initial b t0 h) tr s ->
    st_client s = Some c -> step a s = Some (e, s') -> st_client s' = Some c.

(** The sentence on the offset as it is written: the offset of a pushed
    Result is the time between the stamp of [Run] and the start of the
    attempt. *)
Definition offset_run_relative : Prop :=
  forall b t0 h tr1 w r tr2 s,
    fresh b -> reaches (initial b t0 h) (tr1 ++ EvResult w r :: tr2) s ->
    exists t_req t_run,
      last_request w tr1 = Some t_req /\ run_start tr1 = Some t_run /\
      offset r = int_sub t_req t_run.

(** A worker that is not in makeRequest. *)
Definition quiet (wk : worker) : Prop :=
  match w_pc wk with WCall | WDo _ _ | WSend _ => False | _ => True end.

(** ** Progress of a run *)

(** What a run needs from its job to go through: a channel size that
    [make] accepts, a request template (runWorkers reads its Host), a
    request for every attempt, and a throttle that ticks when QPS > 0. *)
Definition live (b : Work.t) : Prop :=
  0 <= min (int_mul (Work.C b) 1000) maxResult /\
  Work.Request b <> None /\
  (forall h, new_request b h <> None) /\
  (f64_ltb f64_zero (Work.QPS b) = true -> new_throttle b <> None).

(** The steps of the program itself, as opposed to those of its
    surroundings (cancellation, the clock). *)
Definition program (a : action) : bool :=
  match a with CtxCancel | Clock _ => false | _ => true end.





(** What the spawn loop has handed out, followed by what it will hand
    out, is the list [shares N C]. *)
Definition shares_so_far (N C : Z) (s : state) : Prop :=
  match st_ctl s with
  | CInit | CStart | CReport | CAdd | CClient => st_pool s = []
  | CSpawn i lft =>
      (w_n <$> st_pool s)
      ++ (spawn_loop (Z.to_nat (C - 1 - i)) C i lft).1
      ++ [(spawn_loop (Z.to_nat (C - 1 - i)) C i lft).2] = shares N C
  | _ => w_n <$> st_pool s = shares N C
  end.


(** ** More to say about a run *)

(** *** The hooks of an attempt *)

(** One of the hooks that [p] selects has fired during [c.Do]. *)
Definition fired (p : trace_event -> bool) (evs : list trace_event) : bool :=
  existsb p evs.

Definition is_DNSDone (e : trace_event) : bool :=
  match e with DNSDone _ => true | _ => false end.

(** GotConn with a connection that is not reused. *)
Definition is_new_conn (e : trace_event) : bool :=
  match e with GotConn false _ _ => true | _ => false end.

Definition is_WroteRequest (e : trace_event) : bool :=
  match e with WroteRequest _ => true | _ => false end.

Definition is_first_byte (e : trace_event) : bool :=
  match e with GotFirstResponseByte _ => true | _ => false end.

(** *** Panics *)



(** *** Where a worker stands in its iteration *)

(** A worker that has passed the select of its current iteration and has
    not yet called [c.Do]. *)
Definition past_check (wk : worker) : Z :=
  match w_pc wk with WGate | WCall => 1 | _ => 0 end.

(** A worker that is about to call makeRequest. *)
Definition at_call (wk : worker) : Z :=
  match w_pc wk with WCall => 1 | _ => 0 end.

(** A worker that is waiting for its throttle. *)
Definition at_gate (wk : worker) : Z :=
  match w_pc wk with WGate => 1 | _ => 0 end.

Definition is_tick (e : event) : Z :=
  match e with EvTick _ => 1 | _ => 0 end.

(** *** The clock *)

(** The time a schedule lets pass. *)
Definition elapsed (acts : list action) : Z :=
  tally (fun a => match a with Clock dt => dt | _ => 0 end) acts.

(** [b.start] has been written. *)
Definition stamped (c : cpc) : bool :=
  match c with CInit | CStart => false | _ => true end.

(** A Result of an attempt made between [start] and [now]. *)
Definition timed (start now : Duration) (r : result) : Prop :=
  start <= offset r /\ 0 <= duration r /\ offset r + duration r <= now.

(** The readings a worker holds while it is in makeRequest. *)
Definition worker_timed (start now : Duration) (wk : worker) : Prop :=
  match w_pc wk with
  | WDo _ s0 => start <= s0 <= now
  | WSend r => timed start now r
  | _ => True
  end.

(** The totals that [finish] has computed. *)
Definition totals (tr : list event) : list Duration :=
  omap (fun e => match e with EvTotal t => Some t | _ => None end) tr.

(** What holds of the readings of [now()] in a run whose clock stays
    within the int64 range. *)
Record Timing (tr : list event) (s : state) : Prop := {
  tm_now : 0 <= st_now s <= max_int;
  tm_start : stamped (st_ctl s) = true -> 0 <= Work.start (st_b s) <= st_now s;
  tm_early : stamped (st_ctl s) = false -> pushed tr = [];
  tm_workers : Forall (worker_timed (Work.start (st_b s)) (st_now s)) (st_pool s);
  tm_pushed : Forall (timed (Work.start (st_b s)) (st_now s)) (pushed tr);
  tm_total : forall total, total ∈ totals tr ->
             past_wait (st_ctl s) = true /\ 0 <= total /\
             Work.start (st_b s) + total <= st_now s /\
             Forall (fun r => offset r + duration r <= Work.start (st_b s) + total)
                    (pushed tr)
}.

(** *** The period of the throttle, checked by evaluation *)

(** [p] holds of the [fuel] integers from [q] on. *)
Fixpoint all_from (fuel : nat) (q : Z) (p : Z -> bool) : bool :=
  match fuel with
  | O => true
  | S fuel' => p q && all_from fuel' (q + 1) p
  end.

(** With [q] queries per second the throttle is there and ticks every
    1000000 / q microseconds. *)
Definition period_ok (q : Z) : bool :=
  f64_ltb f64_zero (f64_of_Z q) &&
  (throttle_period (f64_of_Z q) =? 1000000 / q * Microsecond).

(** *** A job for three workers *)

(** [Run] up to [wg.Wait()], for three workers: Init, start, report, Add,
    client, and the three go statements. *)
Definition sched_spawn_three : list action :=
  [Controller; Controller; Controller; Controller; Controller;
   Controller; Controller; Controller].

(** * Properties *)

(** ** Arithmetic on ints *)

Lemma wrap_id z : in_int z -> wrap z = z.
Proof.
  unfold in_int, wrap, min_int, max_int. intros H.
  rewrite Z.mod_small; lia.
Qed.

Ltac int_range := unfold in_int, min_int, max_int in *; try lia; try nia.

Lemma int_sub_id a b : in_int (a - b) -> int_sub a b = a - b.
Proof. apply wrap_id. Qed.

Lemma int_add_id a b : in_int (a + b) -> int_add a b = a + b.
Proof. apply wrap_id. Qed.


Lemma int_quot_id a b : in_int (Z.quot a b) -> int_quot a b = Z.quot a b.
Proof. apply wrap_id. Qed.

Lemma min_Zmin a b : min a b = Z.min a b.
Proof. unfold min. destruct (Z.ltb_spec a b); lia. Qed.

(** ** The shares of the workers *)

(** One iteration of the loop: with [k >= 2] workers still to serve and
    [left] between [q * k] and [(q + 1) * k], the share is [q] or [q + 1]
    and the bounds hold again for [k - 1] workers. *)
Lemma quot_step q k left :
  0 <= q -> 2 <= k -> q * k <= left <= (q + 1) * k ->
  (Z.quot left k = q \/ Z.quot left k = q + 1) /\
  q * (k - 1) <= left - Z.quot left k <= (q + 1) * (k - 1).
Proof.
  intros Hq Hk [Hlo Hhi].
  rewrite Z.quot_div_nonneg by nia.
  destruct (Z.eq_dec left ((q + 1) * k)) as [->|Hne].
  - rewrite Z.div_mul by lia. split; [right; lia | nia].
  - assert (left / k = q) as ->.
    { symmetry. apply (Z.div_unique_pos left k q (left - q * k)); nia. }
    split; [left; lia | nia].
Qed.

Lemma spawn_loop_spec fuel : forall C i left q,
  0 <= i -> 1 <= C - i -> C <= max_int -> (Z.to_nat (C - i - 1) <= fuel)%nat ->
  0 <= q -> q * (C - i) <= left <= (q + 1) * (C - i) -> left <= max_int ->
  Forall (fun n => n = q \/ n = q + 1) (spawn_loop fuel C i left).1 /\
  ((spawn_loop fuel C i left).2 = q \/ (spawn_loop fuel C i left).2 = q + 1) /\
  zsum (spawn_loop fuel C i left).1 + (spawn_loop fuel C i left).2 = left /\
  Z.of_nat (length (spawn_loop fuel C i left).1) = C - i - 1.
Proof.
  induction fuel as [|fuel IH]; intros C i left q Hi Hk HC Hf Hq Hl Hmax; simpl.
  - assert (C - i = 1) by lia.
    split; [constructor|]. split; [lia|]. split; simpl; lia.
  - rewrite (int_sub_id C 1) by int_range.
    destruct (Z.ltb_spec i (C - 1)) as [Hlt|Hge].
    + rewrite (int_sub_id C i) by int_range.
      destruct (quot_step q (C - i) left Hq ltac:(lia) Hl) as [Hn Hl'].
      rewrite (int_quot_id left (C - i)) by int_range.
      set (n := Z.quot left (C - i)) in *.
      rewrite (int_sub_id left n) by int_range.
      rewrite (int_add_id i 1) by int_range.
      specialize (IH C (i + 1) (left - n) q).
      replace (C - (i + 1)) with (C - i - 1) in IH by lia.
      specialize (IH ltac:(lia) ltac:(lia) HC ltac:(lia) Hq Hl' ltac:(lia)).
      destruct (spawn_loop fuel C (i + 1) (left - n)) as [ns last].
      simpl in *. destruct IH as (Hall & Hlast & Hsum & Hlen).
      split; [constructor; assumption|]. split; [assumption|].
      split; [lia|]. lia.
    + assert (C - i = 1) by lia. simpl.
      split; [constructor|]. split; [lia|]. split; simpl; lia.
Qed.

Lemma zsum_app l1 l2 : zsum (l1 ++ l2) = zsum l1 + zsum l2.
Proof. induction l1 as [|x l1 IH]; simpl; lia. Qed.

(** C1: for every N >= 0 and C >= 1 (ints), the share computation of
    runWorkers yields C shares, none negative, whose sum is exactly N and
    of which no two differ by more than 1. *)
Theorem shares_balanced (N C : Z) :
  0 <= N <= max_int -> 1 <= C <= max_int ->
  length (shares N C) = Z.to_nat C /\
  (forall x, x ∈ shares N C -> 0 <= x) /\
  zsum (shares N C) = N /\
  (forall x y, x ∈ shares N C -> y ∈ shares N C -> Z.abs (x - y) <= 1).
Proof.
  intros HN HC. unfold shares.
  pose proof (spawn_loop_spec (Z.to_nat C) C 0 N (N / C)) as H.
  assert (Hq : 0 <= N / C) by (apply Z.div_pos; lia).
  assert (Hb : N / C * (C - 0) <= N <= (N / C + 1) * (C - 0)).
  { pose proof (Z.div_mod N C ltac:(lia)).
    pose proof (Z.mod_pos_bound N C ltac:(lia)). nia. }
  specialize (H ltac:(lia) ltac:(lia) ltac:(lia) ltac:(lia) Hq Hb ltac:(lia)).
  destruct (spawn_loop (Z.to_nat C) C 0 N) as [ns last]. simpl in H.
  destruct H as (Hall & Hlast & Hsum & Hlen).
  assert (Hin : forall x, x ∈ ns ++ [last] -> x = N / C \/ x = N / C + 1).
  { intros x Hx. apply elem_of_app in Hx as [Hx|Hx].
    - rewrite Forall_forall in Hall. apply Hall, Hx.
    - apply list_elem_of_singleton in Hx. subst. exact Hlast. }
  split; [rewrite length_app; simpl; lia|].
  split; [intros x Hx; destruct (Hin x Hx); lia|].
  split; [rewrite zsum_app; simpl; lia|].
  intros x y Hx Hy. destruct (Hin x Hx), (Hin y Hy); lia.
Qed.

Lemma shares_balanced_witness :
  length (shares 10 3) = Z.to_nat 3 /\
  (forall x, x ∈ shares 10 3 -> 0 <= x) /\
  zsum (shares 10 3) = 10 /\
  (forall x y, x ∈ shares 10 3 -> y ∈ shares 10 3 -> Z.abs (x - y) <= 1).
Proof. apply (shares_balanced 10 3); unfold max_int; lia. Defined.

Example shares_10_3 : shares 10 3 = [3; 3; 4].
Proof. reflexivity. Qed.

Example shares_7_3 : shares 7 3 = [2; 2; 3].
Proof. reflexivity. Qed.

(** ** Init *)

Lemma Init_done (b : Work.t) : Work.initOnce b = true -> Init b = Returns b.
Proof. intros H. unfold Init. rewrite H. reflexivity. Qed.

(** Whatever the first call did, a later call changes nothing. *)
Lemma Init_idempotent (b : Work.t) :
  Init (state_of (Init b)) = Returns (state_of (Init b)).
Proof.
  unfold Init at 2 3. destruct (Work.initOnce b) eqn:Hd.
  - simpl. apply Init_done, Hd.
  - destruct (make_chan _); simpl; apply Init_done; reflexivity.
Qed.

Lemma Init_times_done (k : nat) (b : Work.t) :
  Work.initOnce b = true -> Init_times k b = Returns b /\ Init_makes k b = 0%nat.
Proof.
  intros H. induction k as [|k [IH1 IH2]]; simpl; [done|].
  rewrite (Init_done b H), H. rewrite IH1, IH2. done.
Qed.


Example Init_overflow :
  panicked (Init (Work.mk None [] None 0 9223372036854776 false false false 0
                    f64_zero false false false "" None false None 0 None)) = true.
Proof. reflexivity. Qed.



(** ** cloneRequest *)

Lemma copy_header (m : gmap string (list string)) :
  map_fold (fun k s (acc : gmap string (list string)) => <[k := [] ++ s]> acc) ∅ m = m.
Proof.
  apply (map_fold_weak_ind (fun r m => r = m)); [done|].
  intros i x m' r _ ->. done.
Qed.

(** The clone's header is a map of its own, with the template's entries. *)
Lemma cloneRequest_header r body h :
  let '(r2, h') := cloneRequest r body h in
  Header r2 = Some (length (h_headers h)) /\
  header_at h' (Header r2) = header_at h (Header r) /\
  (forall l, (l < length (h_headers h))%nat -> h_headers h' !! l = h_headers h !! l).
Proof.
  unfold cloneRequest. rewrite copy_header. simpl.
  destruct (0 <? length body)%nat; simpl.
  - split; [done|]. split.
    + rewrite lookup_app_r by lia. by rewrite Nat.sub_diag.
    + intros l Hl. by rewrite lookup_app_l.
  - split; [done|]. split.
    + rewrite lookup_app_r by lia. by rewrite Nat.sub_diag.
    + intros l Hl. by rewrite lookup_app_l.
Qed.

(** C10: the clone gets a body reader of its own exactly when the body
    slice is non-empty; with an empty (or nil) slice its Body is the
    template's, so the template's reader is shared by all the clones. *)
Theorem cloneRequest_body (r : http_Request) (body : list Byte.byte) (h : heap) :
  let '(r2, h') := cloneRequest r body h in
  (body <> [] ->
     exists l, Body r2 = Some l /\
       h_readers h !! l = None /\
       h_readers h' !! l = Some {| rd_data := body; rd_pos := 0 |} /\
       (forall l', l' <> l -> h_readers h' !! l' = h_readers h !! l')) /\
  (body = [] -> Body r2 = Body r /\ h_readers h' = h_readers h) /\
  (forall r3 h'', cloneRequest r body h' = (r3, h'') ->
     if decide (body = []) then Body r3 = Body r2 /\ Body r3 = Body r
     else Body r3 <> Body r2).
Proof.
  unfold cloneRequest. rewrite !copy_header.
  destruct body as [|c body]; simpl.
  - split; [done|]. split; [done|].
    intros r3 h'' [= <- <-]. simpl. done.
  - split; [|split; [done|]].
    + intros _. exists (length (h_readers h)). split; [done|].
      split; [apply lookup_ge_None; lia|]. split.
      * rewrite lookup_app_r by lia. by rewrite Nat.sub_diag.
      * intros l' Hl'. destruct (decide (l' < length (h_readers h))%nat).
        -- by rewrite lookup_app_l.
        -- rewrite !(proj2 (lookup_ge_None _ _)); [done|lia|].
           rewrite length_app; simpl; lia.
    + intros r3 h'' [= <- <-]. simpl. rewrite length_app. simpl.
      intros [=]. lia.
Qed.

(** A reader set on the template, with no [RequestBody]: the two clones
    read from the same reader, so the second sees what the first left. *)
Example clones_share_template_reader :
  let abc := [Byte.x61; Byte.x62; Byte.x63] in
  let h := {| h_readers := [NewReader abc]; h_headers := [] |} in
  let r := {| Method := "POST"; URL := "/"; Host := "h"; Header := None;
              Body := Some 0%nat |} in
  let '(r2, h1) := cloneRequest r [] h in
  let '(r3, h2) := cloneRequest r [] h1 in
  Body r2 = Some 0%nat /\ Body r3 = Some 0%nat /\
  (read_body 0 2 h2).1 = [Byte.x61; Byte.x62] /\
  (read_body 0 2 (read_body 0 2 h2).2).1 = [Byte.x63].
Proof. repeat split. Qed.

(** With a [RequestBody], each clone reads the whole payload. *)
Example clones_own_reader :
  let abc := [Byte.x61; Byte.x62; Byte.x63] in
  let h := {| h_readers := []; h_headers := [] |} in
  let r := {| Method := "POST"; URL := "/"; Host := "h"; Header := None;
              Body := None |} in
  let '(r2, h1) := cloneRequest r abc h in
  let '(r3, h2) := cloneRequest r abc h1 in
  Body r2 = Some 0%nat /\ Body r3 = Some 1%nat /\
  (read_body 0 2 h2).1 = [Byte.x61; Byte.x62] /\
  (read_body 1 3 (read_body 0 2 h2).2).1 = abc.
Proof. repeat split. Qed.

(** ** The job description does not change during a run *)
(** Case analysis of one step: unfolds the goroutine that moves and splits
    on every test it makes. *)
Ltac step_cases H :=
  unfold step in H;
  match type of H with
  | (if ?c then _ else _) = _ => destruct c eqn:?; [discriminate H|]
  end;
  match type of H with
  | match ?a with _ => _ end = _ => destruct a
  end;
  unfold controller_step, worker_step, send_step, network_step,
    reporter_step, panic in H;
  repeat (match type of H with
          | context [match ?x with _ => _ end] => destruct x eqn:?
          end; try discriminate H);
  try (injection H as <- <-).

Lemma step_job a s e s' :
  step a s = Some (e, s') -> job_of (st_b s') = job_of (st_b s).
Proof.
  intros H. step_cases H; try reflexivity.
  all: unfold Init in *; repeat (case_match; simplify_eq); reflexivity.
Qed.

Lemma reaches_job s0 tr s :
  reaches s0 tr s -> job_of (st_b s) = job_of (st_b s0).
Proof.
  induction 1 as [|tr s a e s' _ IH Hs]; [done|].
  by rewrite (step_job _ _ _ _ Hs).
Qed.

(** ** The invariant of a run *)

Lemma tally_nil {A} (f : A -> Z) : tally f [] = 0.
Proof. reflexivity. Qed.

Lemma tally_app {A} (f : A -> Z) l1 l2 : tally f (l1 ++ l2) = tally f l1 + tally f l2.
Proof. unfold tally. rewrite fmap_app. apply zsum_app. Qed.

Lemma tally_snoc {A} (f : A -> Z) l x : tally f (l ++ [x]) = tally f l + f x.
Proof. rewrite tally_app. unfold tally. csimpl. lia. Qed.

Lemma tally_insert {A} (f : A -> Z) l i x y :
  l !! i = Some x -> tally f (<[i:=y]> l) = tally f l - f x + f y.
Proof.
  revert i. induction l as [|a l IH]; intros [|i] H; simplify_eq/=.
  - unfold tally. csimpl. lia.
  - specialize (IH _ H). unfold tally in *. csimpl in *. lia.
Qed.

Lemma tally_ext {A} (f g : A -> Z) l :
  Forall (fun x => f x = g x) l -> tally f l = tally g l.
Proof. induction 1 as [|x l Hx _ IH]; unfold tally in *; csimpl; [done|lia]. Qed.

Lemma tally_nonneg {A} (f : A -> Z) l :
  Forall (fun x => 0 <= f x) l -> 0 <= tally f l.
Proof. induction 1 as [|x l Hx _ IH]; unfold tally in *; csimpl; lia. Qed.

Lemma tally_zero {A} (f : A -> Z) l :
  Forall (fun x => 0 <= f x) l -> tally f l = 0 -> Forall (fun x => f x = 0) l.
Proof.
  induction 1 as [|x l Hx Hl IH]; [constructor|].
  intros H. pose proof (tally_nonneg f l Hl). unfold tally in *. csimpl in H. simpl in H.
  constructor; [simpl; lia|apply IH; lia].
Qed.



Ltac open_worker :=
  repeat match goal with
  | Hp : w_pc ?wk = _ |- _ => is_var wk; destruct wk; simpl in Hp; subst
  end.

Lemma tally_lookup_le {A} (f : A -> Z) l i x :
  (forall y, 0 <= f y) -> l !! i = Some x -> f x <= tally f l.
Proof.
  intros Hf. revert i. induction l as [|a l IH]; intros [|i] H; simplify_eq/=.
  - unfold tally. csimpl. pose proof (tally_nonneg f l). unfold tally in *.
    assert (0 <= zsum (f <$> l)) by (apply H; apply Forall_forall; auto). lia.
  - specialize (IH _ H). unfold tally in *. csimpl. specialize (Hf a). lia.
Qed.

Lemma pending_le pool w wk :
  pool !! w = Some wk -> pending wk <= tally pending pool.
Proof.
  apply tally_lookup_le. intros y. unfold pending. destruct (w_pc y); lia.
Qed.

Ltac with_worker_facts :=
  repeat match goal with
  | Hl : ?p !! ?w = Some ?wk |- _ =>
      lazymatch goal with
      | _ : pending wk <= _ |- _ => fail
      | _ => pose proof (pending_le p w wk Hl)
      end
  end;
  repeat match goal with
  | Hl : ?p !! ?w = Some ?wk, HF : Forall ?P ?p |- _ =>
      lazymatch goal with
      | _ : P wk |- _ => fail
      | _ => pose proof (Forall_lookup_1 P p w wk HF Hl)
      end
  end.

Ltac tally_rw :=
  rewrite ?tally_snoc, ?tally_nil in *;
  repeat match goal with
  | Hl : ?p !! ?w = Some ?wk |- context [tally ?f (<[?w := ?x]> ?p)] =>
      rewrite (tally_insert f p w wk x Hl)
  end.

Ltac empty_pool :=
  match goal with
  | Hlen : Z.of_nat (length ?p) = 0 |- _ =>
      is_var p; destruct p; [|simpl in Hlen; lia];
      rewrite ?lookup_nil in *; simplify_eq
  end.

Ltac norm_hyps :=
  repeat match goal with
  | H : ?x = ?x -> _ |- _ => specialize (H eq_refl)
  | H : (_ <? _) = true |- _ => apply Z.ltb_lt in H
  | H : (_ <? _) = false |- _ => apply Z.ltb_ge in H
  | H : (_ =? _) = true |- _ => apply Z.eqb_eq in H
  | H : (_ =? _) = false |- _ => apply Z.eqb_neq in H
  | H : _ && _ = true |- _ => apply andb_true_iff in H
  | H : negb _ = true |- _ => apply negb_true_iff in H
  | H : _ /\ _ |- _ =>
      let H1 := fresh in let H2 := fresh in
      pose proof H as [H1 H2]; clear H
  end.

Ltac crush :=
  simpl in *; simplify_eq; tally_rw;
  repeat progress
    (unfold pending, started, returned, in_flight, in_iteration, is_result,
       is_request, is_close, wf_worker, buffered, seen, receiving in *;
     simpl in *; norm_hyps);
  try rewrite (int_add_id _ 1) in * by int_range;
  try done; try lia; try (repeat split; (done || lia)).


Lemma spawn_more C i lft :
  1 <= C <= max_int -> 0 <= i <= C - 1 -> 0 <= lft <= max_int ->
  (i <? int_sub C 1) = true ->
  (int_sub C i =? 0) = false /\
  0 <= int_quot lft (int_sub C i) <= lft /\
  int_sub lft (int_quot lft (int_sub C i)) = lft - int_quot lft (int_sub C i) /\
  int_add i 1 = i + 1 /\ i + 1 <= C - 1.
Proof.
  intros HC Hi Hl Hlt.
  rewrite (int_sub_id C 1) in Hlt by int_range. apply Z.ltb_lt in Hlt.
  rewrite (int_sub_id C i) by int_range.
  assert (Hq : 0 <= Z.quot lft (C - i) <= lft).
  { rewrite Z.quot_div_nonneg by lia. split; [apply Z.div_pos; lia|].
    apply Z.div_le_upper_bound; nia. }
  rewrite (int_quot_id lft (C - i)) by int_range.
  rewrite (int_sub_id lft _) by int_range.
  rewrite (int_add_id i 1) by int_range.
  split; [apply Z.eqb_neq; lia|]. lia.
Qed.

Lemma spawn_last C i :
  1 <= C <= max_int -> 0 <= i <= C - 1 -> (i <? int_sub C 1) = false -> i = C - 1.
Proof.
  intros HC Hi Hlt. rewrite (int_sub_id C 1) in Hlt by int_range.
  apply Z.ltb_ge in Hlt. lia.
Qed.

Lemma pool_shares_nonneg pool : Forall wf_worker pool -> 0 <= tally w_n pool.
Proof.
  intros H. apply tally_nonneg. eapply Forall_impl; [exact H|].
  intros wk (? & ? & ?). lia.
Qed.

Ltac init_cases :=
  unfold Init, make_chan in *; repeat (case_match; simplify_eq); simpl in *.

(** The case analysis of a step from a state that satisfies the
    invariant, with the facts the cases need. *)
Ltac prelude HI H :=
  match type of H with
  | step _ ?s = _ => destruct s as [b ctl done now hp cl wg pool crashed]
  end;
  step_cases H;
  destruct HI as [Hjob Hfresh Hlen Hsum Hspawn Hwg Hwaited Hwk Hnc Hchan
                  Hrep Hcl Hres Hreq Hdel Hclose Hret Hcan];
  simpl in *; subst; simpl in *;
  pose proof (f_equal Work.C Hjob) as HC;
  pose proof (f_equal Work.N Hjob) as HN;
  simpl in HC, HN;
  pose proof (pool_shares_nonneg _ Hwk) as Hnn;
  with_worker_facts; open_worker.

Ltac spawn_facts :=
  repeat match goal with
  | E : Work.C ?b = Work.C _ |- _ => rewrite E in *; clear E
  | E : Work.N ?b = Work.N _ |- _ => rewrite E in *; clear E
  end;
  match goal with
  | Hlt : (?i <? int_sub ?C 1) = true, Hs : 0 <= ?i <= _ /\ 0 <= ?l |- _ =>
      destruct (spawn_more C i l ltac:(lia) ltac:(lia) ltac:(lia) Hlt)
        as (Fd & Fq & Fs & Fa & Fi)
  | Hlt : (?i <? int_sub ?C 1) = false, Hs : 0 <= ?i <= _ /\ 0 <= ?l |- _ =>
      let F := fresh "F" in
      assert (F := spawn_last _ i ltac:(eassumption) ltac:(lia) Hlt)
  | _ => idtac
  end.

Section Run.
Variable b0 : Work.t.
Hypothesis b0_fresh : fresh b0.
Hypothesis N_range : 0 <= Work.N b0 <= max_int.
Hypothesis C_range : 1 <= Work.C b0 <= max_int.

Lemma Inv_initial t0 h : Inv b0 [] (initial b0 t0 h).
Proof.
  destruct b0_fresh as (Hi & Hr & Hp).
  constructor; unfold buffered, seen; simpl; rewrite ?Hr, ?Hp; try done;
    try (unfold tally; simpl; lia).
  split; [done|]. intros H. by apply elem_of_nil in H.
Qed.

Lemma step_inv_fresh tr s a e s' :
  Inv b0 tr s -> step a s = Some (e, s') ->
  st_crashed s' = false -> st_ctl s' = CInit -> Work.initOnce (st_b s') = false.
Proof.
  intros HI H. prelude HI H; crush; auto.
Qed.

Lemma step_inv_len tr s a e s' :
  Inv b0 tr s -> step a s = Some (e, s') ->
  Z.of_nat (length (st_pool s')) = spawned (Work.C b0) (st_ctl s').
Proof.
  intros HI H. prelude HI H; spawn_facts; crush;
    rewrite ?length_insert, ?length_app; simpl; try lia.
Qed.

Lemma step_inv_sum tr s a e s' :
  Inv b0 tr s -> step a s = Some (e, s') ->
  tally w_n (st_pool s') + undistributed (Work.N b0) (st_ctl s') = Work.N b0.
Proof.
  intros HI H. prelude HI H; spawn_facts; crush.
Qed.

Lemma step_inv_spawn tr s a e s' :
  Inv b0 tr s -> step a s = Some (e, s') ->
  match st_ctl s' with
  | CSpawn i lft => 0 <= i <= Work.C b0 - 1 /\ 0 <= lft
  | _ => True
  end.
Proof.
  intros HI H. prelude HI H; spawn_facts; crush.
Qed.

Lemma step_inv_wg tr s a e s' :
  Inv b0 tr s -> step a s = Some (e, s') ->
  st_wg s' = if added (st_ctl s')
             then Work.C b0 - spawned (Work.C b0) (st_ctl s')
                  + tally pending (st_pool s')
             else 0.
Proof.
  intros HI H. prelude HI H; spawn_facts; crush.
  all: try (destruct ctl; crush); try (empty_pool; crush).
Qed.

Lemma step_inv_waited tr s a e s' :
  Inv b0 tr s -> step a s = Some (e, s') ->
  past_wait (st_ctl s') = true -> tally pending (st_pool s') = 0.
Proof.
  intros HI H. prelude HI H; spawn_facts; crush.
  all: try (intros Hp; specialize (Hwaited Hp); crush).
Qed.

Lemma step_inv_workers tr s a e s' :
  Inv b0 tr s -> step a s = Some (e, s') -> Forall wf_worker (st_pool s').
Proof.
  intros HI H. prelude HI H; spawn_facts; crush.
  all: try (apply Forall_insert; [done|]; crush).
  all: apply Forall_app; (split; [done|]); repeat constructor; crush.
Qed.

Lemma step_inv_nocancel tr s a e s' :
  Inv b0 tr s -> step a s = Some (e, s') ->
  st_ctx_done s' = false ->
  Forall (fun wk => returned wk = true -> w_i wk = w_n wk) (st_pool s').
Proof.
  intros HI H. prelude HI H; spawn_facts; crush.
  all: intros Hd; try specialize (Hnc Hd); with_worker_facts; crush.
  all: try (apply Forall_insert; [done|]; crush).
  all: try (apply Forall_app; (split; [done|]); repeat constructor; crush).
Qed.

Lemma step_inv_chan tr s a e s' :
  Inv b0 tr s -> step a s = Some (e, s') ->
  match Work.results (st_b s') with
  | None => st_ctl s' = CInit
  | Some ch => st_ctl s' <> CInit /\ 0 <= ch_cap ch /\
               ch_closed ch = closed_phase (st_ctl s')
  end.
Proof.
  intros HI H. prelude HI H; spawn_facts; crush.
  all: init_cases; repeat case_match; crush.
Qed.

Lemma step_inv_report tr s a e s' :
  Inv b0 tr s -> step a s = Some (e, s') ->
  match Work.report (st_b s') with
  | None => reported (st_ctl s') = false
  | Some rp => reported (st_ctl s') = true /\ rp_running rp = true /\
               (rp_done rp = true ->
                closed_phase (st_ctl s') = true /\ buffered (st_b s') = [])
  end.
Proof.
  intros HI H. prelude HI H; spawn_facts; crush.
  all: init_cases; repeat case_match; crush.
  all: try (split; [done|]; split; [done|]; intros; split; congruence).
  all: intuition congruence.
Qed.

Lemma step_inv_client tr s a e s' :
  Inv b0 tr s -> step a s = Some (e, s') ->
  has_client (st_ctl s') = true -> is_Some (st_client s').
Proof.
  intros HI H. prelude HI H; spawn_facts; crush.
Qed.

Lemma step_inv_results tr s a e s' :
  Inv b0 tr s -> step a s = Some (e, s') ->
  tally is_result (tr ++ [e]) = tally w_i (st_pool s').
Proof.
  intros HI H. prelude HI H; spawn_facts; crush.
Qed.

Lemma step_inv_requests tr s a e s' :
  Inv b0 tr s -> step a s = Some (e, s') ->
  tally is_request (tr ++ [e]) = tally started (st_pool s').
Proof.
  intros HI H. prelude HI H; spawn_facts; crush.
Qed.

Lemma step_inv_delivered tr s a e s' :
  Inv b0 tr s -> step a s = Some (e, s') ->
  tally is_result (tr ++ [e]) =
  Z.of_nat (length (seen (st_b s'))) + Z.of_nat (length (buffered (st_b s'))).
Proof.
  intros HI H. prelude HI H; spawn_facts; crush.
  all: init_cases; repeat case_match; crush.
  all: repeat match goal with
       | H : ch_buf _ = _ |- _ => rewrite H in *
       | H : Work.report _ = _ |- _ => rewrite H in *
       end.
  all: rewrite ?length_app in *; simpl in *; try lia; try done.
Qed.

Lemma step_inv_close tr s a e s' :
  Inv b0 tr s -> step a s = Some (e, s') ->
  tally is_close (tr ++ [e]) = if closed_phase (st_ctl s') then 1 else 0.
Proof.
  intros HI H. prelude HI H; spawn_facts; crush.
Qed.

Lemma step_inv_cancel tr s a e s' :
  Inv b0 tr s -> step a s = Some (e, s') ->
  st_ctx_done s' = true <-> EvCtxCancel ∈ tr ++ [e].
Proof.
  intros HI H. prelude HI H; simpl.
  all: rewrite elem_of_app, list_elem_of_singleton.
  all: try (split; [tauto|intros [?|?]; [tauto|done]]).
Qed.

Lemma step_inv_returns tr s a e s' :
  Inv b0 tr s -> step a s = Some (e, s') ->
  forall w wk, st_pool s' !! w = Some wk -> returned wk = true ->
  exists c, EvReturn w c ∈ tr ++ [e].
Proof.
  intros HI H. prelude HI H; simpl; intros w' wk' Hl' Hr'.
  all: try (destruct (Hret w' wk' Hl' Hr') as [c' Hc']; exists c';
            apply elem_of_app; by left).
  all: try (apply list_lookup_insert_Some in Hl' as [(-> & <- & Hlt)|(Hne & Hl')];
            [|destruct (Hret w' wk' Hl' Hr') as [c' Hc']; exists c';
              apply elem_of_app; by left]).
  all: try (apply lookup_app_Some in Hl' as [Hl'|[_ Hl']];
            [destruct (Hret w' wk' Hl' Hr') as [c' Hc']; exists c';
              apply elem_of_app; by left|]).
  all: try (eexists; apply elem_of_app; right; apply list_elem_of_singleton;
            reflexivity).
  all: try (unfold returned in Hr'; simpl in Hr'; discriminate).
  all: try (match goal with
            | Hl : _ !! ?w = Some ?wk |- _ =>
                destruct (Hret w wk Hl eq_refl) as [c' Hc']; exists c';
                apply elem_of_app; by left
            end).
  all: apply list_lookup_singleton_Some in Hl' as [_ <-]; discriminate.
Qed.

Lemma Inv_step tr s a e s' :
  Inv b0 tr s -> step a s = Some (e, s') -> Inv b0 (tr ++ [e]) s'.
Proof.
  intros HI H. constructor.
  - rewrite (step_job _ _ _ _ H). apply HI.
  - eapply step_inv_fresh; eauto.
  - eapply step_inv_len; eauto.
  - eapply step_inv_sum; eauto.
  - eapply step_inv_spawn; eauto.
  - eapply step_inv_wg; eauto.
  - eapply step_inv_waited; eauto.
  - eapply step_inv_workers; eauto.
  - eapply step_inv_nocancel; eauto.
  - eapply step_inv_chan; eauto.
  - eapply step_inv_report; eauto.
  - eapply step_inv_client; eauto.
  - eapply step_inv_results; eauto.
  - eapply step_inv_requests; eauto.
  - eapply step_inv_delivered; eauto.
  - eapply step_inv_close; eauto.
  - eapply step_inv_returns; eauto.
  - eapply step_inv_cancel; eauto.
Qed.

Lemma reaches_Inv t0 h tr s : reaches (initial b0 t0 h) tr s -> Inv b0 tr s.
Proof.
  induction 1 as [|tr s a e s' _ IH Hs]; [apply Inv_initial|].
  eapply Inv_step; eauto.
Qed.

End Run.

(** ** Traces and their prefixes *)

Lemma reaches_prefix s0 tr1 e tr2 s :
  reaches s0 (tr1 ++ e :: tr2) s ->
  exists s1 a s1', reaches s0 tr1 s1 /\ step a s1 = Some (e, s1').
Proof.
  revert s. induction tr2 as [|e' tr2 IH] using rev_ind; intros s H.
  - inversion H as [Heq|tr s1 a e0 s1' Hr Hs Heq]; subst.
    + by destruct tr1.
    + change (tr1 ++ [e]) with (tr1 ++ [e]) in Heq.
      apply app_inj_tail in Heq as [-> ->]. eauto.
  - inversion H as [Heq|tr s1 a e0 s1' Hr Hs Heq]; subst.
    + by destruct tr1.
    + rewrite app_comm_cons, app_assoc in Heq.
      apply app_inj_tail in Heq as [-> ->]. eauto.
Qed.

Lemma step_close a s s' :
  step a s = Some (EvClose, s') -> st_ctl s = CClose.
Proof. intros H. step_cases H; simpl in *; congruence. Qed.

Lemma step_awaited a s s' :
  step a s = Some (EvAwaited, s') -> exists total, st_ctl s = CAwait total.
Proof. intros H. step_cases H; simpl in *; try congruence; eauto. Qed.

Lemma tally_zero_not_in {A} (f : A -> Z) l x :
  (forall y, 0 <= f y) -> 0 < f x -> tally f l = 0 -> x ∉ l.
Proof.
  intros Hf Hx H Hin.
  apply list_elem_of_lookup in Hin as [i Hi].
  pose proof (tally_lookup_le f l i x Hf Hi). lia.
Qed.

Lemma tally_pos_in {A} (f : A -> Z) l :
  0 < tally f l -> exists i x, l !! i = Some x /\ 0 < f x.
Proof.
  induction l as [|a l IH]; unfold tally in *; csimpl; [lia|].
  intros H. destruct (Z_lt_le_dec 0 (f a)).
  - exists 0%nat, a. done.
  - destruct IH as (i & x & Hi & Hx); [simpl in H; lia|]. exists (S i), x. done.
Qed.

Lemma is_close_nonneg e : 0 <= is_close e.
Proof. destruct e; simpl; lia. Qed.

Lemma past_wait_waited s0 tr s :
  past_wait (st_ctl s0) = false ->
  reaches s0 tr s -> past_wait (st_ctl s) = true -> EvWaited ∈ tr.
Proof.
  intros H0. induction 1 as [|tr s a e s' _ IH Hs]; intros Hp; [congruence|].
  apply elem_of_app. destruct (past_wait (st_ctl s)) eqn:Hps; [left; auto|].
  right. apply list_elem_of_singleton.
  step_cases Hs; simpl in *; subst; simpl in *; try congruence.
  all: match goal with E : st_ctl _ = _ |- _ => rewrite E in * end; done.
Qed.

Lemma all_exited pool :
  tally pending pool = 0 ->
  forall w wk, pool !! w = Some wk -> returned wk = true.
Proof.
  intros H w wk Hl. pose proof (pending_le pool w wk Hl) as Hle.
  unfold pending, returned in *. destruct (w_pc wk); try done; lia.
Qed.

(** C4: the results channel is closed only after wg.Wait() has returned and
    every one of the C workers has returned from runWorker; it is closed
    once; and the controller waits for the reporter's done signal only with
    the channel closed. *)
Theorem close_after_workers (b : Work.t) (t0 : Duration) (h : heap)
    (tr : list event) (s : state) :
  fresh b -> 0 <= Work.N b <= max_int -> 1 <= Work.C b <= max_int ->
  reaches (initial b t0 h) tr s ->
  (forall tr1 tr2, tr = tr1 ++ EvClose :: tr2 ->
     (EvWaited ∈ tr1) /\
     (forall w, (w < Z.to_nat (Work.C b))%nat -> exists c, EvReturn w c ∈ tr1) /\
     (EvClose ∉ tr1) /\ (EvClose ∉ tr2)) /\
  (forall tr1 tr2, tr = tr1 ++ EvAwaited :: tr2 -> EvClose ∈ tr1) /\
  (forall total, st_ctl s = CAwait total ->
     exists ch, Work.results (st_b s) = Some ch /\ ch_closed ch = true) /\
  (st_ctl s = CEnd -> tally is_close tr = 1).
Proof.
  intros Hf HN HC Hr.
  pose proof (reaches_Inv b Hf HN HC t0 h tr s Hr) as HI.
  split; [|split; [|split]].
  - intros tr1 tr2 ->.
    destruct (reaches_prefix _ _ _ _ _ Hr) as (s1 & a & s1' & Hr1 & Hs1).
    pose proof (reaches_Inv b Hf HN HC t0 h tr1 s1 Hr1) as HI1.
    pose proof (step_close _ _ _ Hs1) as Hc.
    destruct HI1 as [_ _ Hlen _ _ _ Hwaited _ _ _ _ _ _ _ _ Hclose Hret _].
    rewrite Hc in *. simpl in *. specialize (Hwaited eq_refl).
    split; [eapply past_wait_waited; [|exact Hr1|]; [done|by rewrite Hc]|].
    split.
    { intros w Hw. destruct (lookup_lt_is_Some_2 (st_pool s1) w) as [wk Hwk]; [lia|].
      eapply Hret; [exact Hwk|]. eapply all_exited; eauto. }
    split.
    { apply (tally_zero_not_in is_close); [apply is_close_nonneg|simpl; lia|done]. }
    destruct HI as [_ _ _ _ _ _ _ _ _ _ _ _ _ _ _ Hclose' _ _].
    rewrite tally_app in Hclose'. unfold tally at 2 in Hclose'.
    rewrite fmap_cons in Hclose'. simpl in Hclose'.
    assert (0 <= tally is_close tr2).
    { apply tally_nonneg, Forall_forall. intros; apply is_close_nonneg. }
    unfold tally in *.
    apply (tally_zero_not_in is_close); [apply is_close_nonneg|simpl; lia|].
    unfold tally. destruct (closed_phase (st_ctl s)); lia.
  - intros tr1 tr2 ->.
    destruct (reaches_prefix _ _ _ _ _ Hr) as (s1 & a & s1' & Hr1 & Hs1).
    pose proof (reaches_Inv b Hf HN HC t0 h tr1 s1 Hr1) as HI1.
    destruct (step_awaited _ _ _ Hs1) as [total Hc].
    destruct HI1 as [_ _ _ _ _ _ _ _ _ _ _ _ _ _ _ Hclose _ _].
    rewrite Hc in Hclose. simpl in Hclose.
    destruct (tally_pos_in is_close tr1) as (i & x & Hi & Hx); [lia|].
    destruct x; simpl in Hx; try lia.
    apply list_elem_of_lookup. eauto.
  - intros total Hc. destruct HI as [_ _ _ _ _ _ _ _ _ Hchan _ _ _ _ _ _ _ _].
    rewrite Hc in Hchan. destruct (Work.results (st_b s)) as [ch|]; [|done].
    exists ch. split; [done|]. apply Hchan.
  - intros Hc. destruct HI as [_ _ _ _ _ _ _ _ _ _ _ _ _ _ _ Hclose _ _].
    by rewrite Hc in Hclose.
Qed.

(** ** Nothing is lost or duplicated on the way to the reporter *)

Lemma pushed_snoc tr e :
  pushed (tr ++ [e]) =
  pushed tr ++ match e with EvResult _ r => [r] | _ => [] end.
Proof. unfold pushed. rewrite omap_app. by destruct e. Qed.

Lemma pushed_length tr : Z.of_nat (length (pushed tr)) = tally is_result tr.
Proof.
  induction tr as [|e tr IH]; [done|].
  unfold tally in *. csimpl. destruct e; simpl in *; lia.
Qed.

(** What was pushed is what the reporter has seen followed by what the
    channel still holds, and the buffer never exceeds its capacity. *)
Lemma reaches_pushed b t0 h tr s :
  fresh b -> reaches (initial b t0 h) tr s ->
  pushed tr = seen (st_b s) ++ buffered (st_b s) /\
  match Work.results (st_b s) with
  | Some ch => Z.of_nat (length (ch_buf ch)) <= ch_cap ch
  | None => True
  end /\
  (has_client (st_ctl s) = false -> st_pool s = []) /\
  (reported (st_ctl s) = false -> pushed tr = []).
Proof.
  intros (Hi & Hr & Hp). induction 1 as [|tr s a e s' _ (IH1 & IH2 & IH3 & IH4) Hs].
  { unfold seen, buffered. simpl. by rewrite Hr, Hp. }
  rewrite pushed_snoc. destruct s as [b1 ctl done now hp cl wg pool crashed].
  step_cases Hs; simpl in *; subst; simpl in *; rewrite ?app_nil_r.
  all: unfold seen, buffered, receiving in *; simpl in *.
  all: try (split; [assumption|split; [assumption|split; assumption]]).
  all: try (split; [assumption|split; [assumption|split; [done|assumption]]]).
  all: try (split; [assumption|split; [assumption|split; done]]).
  all: init_cases; repeat case_match; simplify_eq; simpl in *;
       rewrite ?app_nil_r in *; norm_hyps.
  all: repeat match goal with
       | H : ch_buf _ = _ |- _ => rewrite H in *
       | H : Work.report _ = _ |- _ => rewrite H in *
       | H : Work.results _ = _ |- _ => rewrite H in *
       | H : ?x = ?x -> _ |- _ => specialize (H eq_refl)
       end; simpl in *.
  all: try (destruct pool; [by rewrite lookup_nil in *|]).
  all: repeat split; try done; try lia; try congruence.
  all: rewrite ?length_app in *; simpl in *; try lia.
  all: try (rewrite IH1; by rewrite <- ?app_assoc).
  all: try (intros Hc; destruct ctl; simpl in *; try discriminate;
            specialize (IH3 eq_refl); discriminate).
  all: try (rewrite IH4 in *; symmetry in IH1;
            apply app_eq_nil in IH1 as [E1 E2]; by rewrite ?E1, ?E2).
  all: destruct (ch_buf c); simpl in *; [|lia].
  all: rewrite IH1, !app_nil_r; done.
Qed.

Lemma tally_plus {A} (f g : A -> Z) l :
  tally (fun x => f x + g x) l = tally f l + tally g l.
Proof. induction l as [|x l IH]; unfold tally in *; csimpl; [done|lia]. Qed.

Lemma tally_le {A} (f g : A -> Z) l :
  Forall (fun x => f x <= g x) l -> tally f l <= tally g l.
Proof. induction 1 as [|x l Hx _ IH]; unfold tally in *; csimpl; [done|lia]. Qed.

(** Past [<-b.report.done] the reporter has signalled. *)
Lemma reaches_awaited s0 tr s :
  awaited (st_ctl s0) = false ->
  reaches s0 tr s -> awaited (st_ctl s) = true ->
  exists rp, Work.report (st_b s) = Some rp /\ rp_done rp = true.
Proof.
  intros H0. induction 1 as [|tr s a e s' _ IH Hs]; intros Hp; [congruence|].
  destruct s as [b1 ctl done now hp cl wg pool crashed].
  step_cases Hs; simpl in *; subst; simpl in *; try done; eauto.
  all: try (destruct (IH Hp) as (rp & Hrp & Hd); unfold Init in *;
            repeat (case_match; simplify_eq); simpl in *; eauto; fail).
  all: try (destruct (IH Hp) as (rp & Hrp & Hd); simplify_eq; simpl; eauto).
  rewrite Hrp. simpl. eauto.
Qed.

(** The accounting of a run that is never cancelled: every call of
    makeRequest pushes one Result, whatever was pushed is in the channel or
    with the reporter, in order, and once wg.Wait() has returned exactly N
    Results have been pushed. *)
Lemma pushed_accounting (b : Work.t) (t0 : Duration) (h : heap)
    (tr : list event) (s : state) :
  fresh b -> 0 <= Work.N b <= max_int -> 1 <= Work.C b <= max_int ->
  reaches (initial b t0 h) tr s ->
  EvCtxCancel ∉ tr ->
  tally is_request tr = tally is_result tr + tally flying (st_pool s) /\
  0 <= tally flying (st_pool s) /\
  tally is_request tr <= Work.N b /\
  pushed tr = seen (st_b s) ++ buffered (st_b s) /\
  Z.of_nat (length (pushed tr)) = tally is_result tr /\
  (past_wait (st_ctl s) = true ->
   tally is_request tr = Work.N b /\ tally is_result tr = Work.N b) /\
  (st_ctl s = CEnd ->
   pushed tr = seen (st_b s) /\ Z.of_nat (length (seen (st_b s))) = Work.N b).
Proof.
  intros Hf HN HC Hr Hnc.
  pose proof (reaches_Inv b Hf HN HC t0 h tr s Hr) as HI.
  destruct (reaches_pushed b t0 h tr s Hf Hr) as (Hpush & _).
  destruct HI as [_ _ _ Hsum Hsp _ Hwaited Hwk Hncl _ Hrep _ Hres Hreq _ _ _ Hcan].
  assert (Hdone : st_ctx_done s = false).
  { destruct (st_ctx_done s); [|done]. exfalso. apply Hnc, Hcan. done. }
  specialize (Hncl Hdone).
  assert (Hst : tally started (st_pool s) = tally w_i (st_pool s) + tally flying (st_pool s)).
  { rewrite <- tally_plus. done. }
  assert (Hfl : 0 <= tally flying (st_pool s)).
  { apply tally_nonneg, Forall_forall. intros wk _. unfold flying.
    destruct (in_flight wk); lia. }
  assert (Hle : tally started (st_pool s) <= tally w_n (st_pool s)).
  { apply tally_le. eapply Forall_impl; [exact Hwk|].
    intros wk (Hi & _ & Hit). unfold started, in_flight, in_iteration in *.
    destruct (w_pc wk); try lia; specialize (Hit eq_refl); lia. }
  assert (Hun : 0 <= undistributed (Work.N b) (st_ctl s)).
  { destruct (st_ctl s); simpl in *; lia. }
  assert (Hend : past_wait (st_ctl s) = true ->
                 tally is_request tr = Work.N b /\ tally is_result tr = Work.N b).
  { intros Hp. specialize (Hwaited Hp).
    assert (Hall : Forall (fun wk => w_i wk = w_n wk /\ flying wk = 0) (st_pool s)).
    { apply Forall_lookup. intros w wk Hl.
      pose proof (all_exited _ Hwaited w wk Hl) as Hret.
      split; [eapply (Forall_lookup_1 _ _ _ _ Hncl Hl); done|].
      unfold returned, flying, in_flight in *. by destruct (w_pc wk). }
    assert (tally w_i (st_pool s) = tally w_n (st_pool s)).
    { apply tally_ext. eapply Forall_impl; [exact Hall|]. by intros wk [? _]. }
    assert (tally flying (st_pool s) = tally (fun _ => 0) (st_pool s)).
    { apply tally_ext. eapply Forall_impl; [exact Hall|]. by intros wk [_ ?]. }
    assert (tally (fun _ : worker => 0) (st_pool s) = 0).
    { clear. induction (st_pool s); unfold tally in *; csimpl; [done|lia]. }
    destruct (st_ctl s); simpl in *; try discriminate; lia. }
  split; [lia|]. split; [done|]. split; [lia|]. split; [done|].
  split; [apply pushed_length|]. split; [done|].
  intros Hc.
  destruct (reaches_awaited (initial b t0 h) tr s eq_refl Hr) as (rp & Hrp & Hd);
    [by rewrite Hc|].
  rewrite Hrp, Hc in Hrep. destruct Hrep as (_ & _ & Hbuf).
  destruct (Hbuf Hd) as [_ Hb]. rewrite Hb, app_nil_r in Hpush.
  split; [done|]. rewrite <- Hpush, pushed_length.
  apply Hend. by rewrite Hc.
Qed.

(** ** The shares of the workers that runWorkers starts *)

(** Fuel beyond the iterations left changes nothing. *)
Lemma spawn_loop_fuel fuel1 : forall fuel2 C i lft,
  1 <= C <= max_int -> 0 <= i <= C - 1 ->
  (Z.to_nat (C - 1 - i) <= fuel1)%nat -> (Z.to_nat (C - 1 - i) <= fuel2)%nat ->
  spawn_loop fuel1 C i lft = spawn_loop fuel2 C i lft.
Proof.
  induction fuel1 as [|fuel1 IH]; intros fuel2 C i lft HC Hi H1 H2.
  - destruct fuel2; [done|]. simpl. rewrite (int_sub_id C 1) by int_range.
    destruct (Z.ltb_spec i (C - 1)); [lia|done].
  - simpl. rewrite (int_sub_id C 1) by int_range.
    destruct (Z.ltb_spec i (C - 1)) as [Hlt|Hge].
    + destruct fuel2 as [|fuel2]; [lia|]. simpl.
      rewrite (int_sub_id C 1) by int_range.
      destruct (Z.ltb_spec i (C - 1)); [|lia].
      rewrite (int_add_id i 1) by int_range.
      rewrite (IH fuel2 C (i + 1)) by lia. done.
    + destruct fuel2; [done|]. simpl. rewrite (int_sub_id C 1) by int_range.
      destruct (Z.ltb_spec i (C - 1)); [lia|done].
Qed.

Lemma fmap_w_n_insert (pool : list worker) (w : nat) wk wk' :
  pool !! w = Some wk -> w_n wk' = w_n wk ->
  w_n <$> <[w := wk']> pool = w_n <$> pool.
Proof.
  intros Hl Hn. rewrite list_fmap_insert, Hn.
  apply list_insert_id. by rewrite list_lookup_fmap, Hl.
Qed.

Lemma reaches_shares b0 t0 h tr s :
  fresh b0 -> 0 <= Work.N b0 <= max_int -> 1 <= Work.C b0 <= max_int ->
  reaches (initial b0 t0 h) tr s ->
  shares_so_far (Work.N b0) (Work.C b0) s.
Proof.
  intros Hf HN0 HC0. induction 1 as [|tr s a e s' Hr IH Hs]; [done|].
  pose proof (reaches_Inv b0 Hf HN0 HC0 t0 h tr s Hr) as HI.
  unfold shares_so_far in *.
  prelude HI Hs; spawn_facts; simpl in *; try done.
  all: try (destruct ctl; simpl in *; subst; rewrite ?lookup_nil in *; try done;
            try (erewrite fmap_w_n_insert; [eassumption|eassumption|done])).
  - (* entering the loop *)
    unfold shares.
    rewrite (spawn_loop_fuel (Z.to_nat (Work.C b0)) (Z.to_nat (Work.C b0 - 1 - 0)))
      by lia.
    by destruct (spawn_loop _ _ _ _).
  - (* one more worker *)
    rewrite <- IH. rewrite Fa, Fs.
    replace (Z.to_nat (Work.C b0 - 1 - i))
      with (S (Z.to_nat (Work.C b0 - 1 - (i + 1)))) by lia.
    simpl. rewrite Heqb0, Fa, Fs.
    match goal with
    | |- context [spawn_loop ?f ?c ?j ?l] =>
        destruct (spawn_loop f c j l) as [ns last]
    end.
    simpl. rewrite fmap_app. simpl. by rewrite <- !app_assoc.
  - (* the last one *)
    rewrite <- IH.
    replace (Z.to_nat (Work.C b0 - 1 - i)) with 0%nat by lia.
    simpl. by rewrite fmap_app.
Qed.


(** ** Schedules and reachability *)

Lemma reaches_trans s0 tr1 s1 tr2 s2 :
  reaches s0 tr1 s1 -> reaches s1 tr2 s2 -> reaches s0 (tr1 ++ tr2) s2.
Proof.
  intros H1. induction 1 as [|tr s a e s' _ IH Hs].
  - by rewrite app_nil_r.
  - rewrite app_assoc. econstructor; eauto.
Qed.

Lemma run_reaches acts : forall s tr s',
  run acts s = Some (tr, s') -> reaches s tr s'.
Proof.
  induction acts as [|a acts IH]; intros s tr s' H; simpl in H.
  - injection H as <- <-. constructor.
  - destruct (step a s) as [[e s1]|] eqn:Hs; [|done].
    destruct (run acts s1) as [[tr1 s2]|] eqn:Hr; [|done].
    injection H as <- <-.
    change (e :: tr1) with ([e] ++ tr1).
    eapply reaches_trans; [|apply IH, Hr].
    apply (reaches_step s [] s a e s1); [constructor|done].
Qed.

(** ** The shared client *)

(** Before [runWorkers] has built it there is no client. *)
Lemma reaches_no_client b t0 h tr s :
  reaches (initial b t0 h) tr s ->
  has_client (st_ctl s) = false -> st_client s = None /\ st_pool s = [].
Proof.
  induction 1 as [|tr s a e s' _ IH Hs]; [done|]. intros Hc.
  destruct s as [b1 ctl done now hp cl wg pool crashed].
  step_cases Hs; simpl in *; subst; simpl in *; try done; auto.
  all: destruct (IH Hc) as [E1 E2]; simplify_eq; try done.
  all: by rewrite lookup_nil in *.
Qed.


(** With DisableRedirects set, the first steps of a worker write the
    client's CheckRedirect field. *)
Lemma client_mutated_by_worker : ~ client_never_mutated.
Proof.
  intros H.
  pose (b := demo_job 1 1 f64_zero true).
  destruct (run (sched_spawn_one ++ [Worker 0]) (initial b 0 empty_heap))
    as [[tr s]|] eqn:Hrun; [|by vm_compute in Hrun].
  destruct (step (Worker 0) s) as [[e s']|] eqn:Hs;
    [|vm_compute in Hrun; injection Hrun as <- <-; by vm_compute in Hs].
  destruct (st_client s) as [c|] eqn:Hc;
    [|vm_compute in Hrun; injection Hrun as <- <-; by vm_compute in Hc].
  pose proof (H b 0 empty_heap tr s (Worker 0) e s' c
                ltac:(by repeat split) (run_reaches _ _ _ _ Hrun) Hc Hs) as Hbad.
  vm_compute in Hrun. injection Hrun as <- <-.
  vm_compute in Hc, Hs. simplify_eq.
Qed.

Example client_before_and_after :
  let b := demo_job 1 1 f64_zero true in
  (fun p => CheckRedirect <$> st_client p.2)
    <$> run (sched_spawn_one ++ [Worker 0]) (initial b 0 empty_heap)
  = Some (Some FollowRedirects) /\
  (fun p => CheckRedirect <$> st_client p.2)
    <$> run (sched_spawn_one ++ [Worker 0; Worker 0]) (initial b 0 empty_heap)
  = Some (Some UseLastResponse).
Proof. split; reflexivity. Qed.

(** C7 (amended): no step touches the transport or the client's timeout;
    the only write to the client is the assignment of CheckRedirect that
    each worker makes before its loop when DisableRedirects is set, and
    with DisableRedirects unset the client is never written. *)
Theorem client_only_CheckRedirect (b : Work.t) (t0 : Duration) (h : heap)
    (tr : list event) (s : state) (a : action) (e : event) (s' : state)
    (c : http_Client) :
  reaches (initial b t0 h) tr s ->
  st_client s = Some c -> step a s = Some (e, s') ->
  exists c', st_client s' = Some c' /\
    Transport c' = Transport c /\ cl_Timeout c' = cl_Timeout c /\
    (c' = c \/
     Work.DisableRedirects (st_b s) = true /\ CheckRedirect c' = UseLastResponse /\
     exists w wk, a = Worker w /\ e = EvSetCheckRedirect w /\
       st_pool s !! w = Some wk /\ w_pc wk = WRedirect) /\
    (Work.DisableRedirects (st_b s) = false -> c' = c).
Proof.
  intros Hr Hc Hs.
  pose proof (reaches_no_client _ _ _ _ _ Hr) as Hno.
  destruct s as [b1 ctl done now hp cl wg pool crashed].
  step_cases Hs; simpl in *; subst; simpl in *.
  all: try (destruct (Hno eq_refl); discriminate).
  all: try (eexists; split; [reflexivity|]; repeat split; auto; fail).
  eexists; split; [reflexivity|]. simplify_eq. simpl.
  repeat split; [|congruence]. right. repeat split; eauto 10.
Qed.

Lemma run_ok_reaches acts s :
  is_Some (run acts s) -> reaches s (run_trace acts s) (run_state acts s).
Proof.
  intros [[tr s'] H]. unfold run_trace, run_state. rewrite H.
  by apply run_reaches with acts.
Qed.

Lemma client_only_CheckRedirect_witness :
  let b := demo_job 1 1 f64_zero true in
  let s := run_state (sched_spawn_one ++ [Worker 0]) (initial b 0 empty_heap) in
  exists c', st_client (run_state [Worker 0] s) = Some c' /\
    Transport c' = Transport (new_client b demo_request) /\
    cl_Timeout c' = cl_Timeout (new_client b demo_request) /\
    (c' = new_client b demo_request \/
     Work.DisableRedirects (st_b s) = true /\ CheckRedirect c' = UseLastResponse /\
     exists w wk, Worker 0 = Worker w /\ EvSetCheckRedirect 0 = EvSetCheckRedirect w /\
       st_pool s !! w = Some wk /\ w_pc wk = WRedirect) /\
    (Work.DisableRedirects (st_b s) = false -> c' = new_client b demo_request).
Proof.
  intros b s.
  apply (client_only_CheckRedirect b 0 empty_heap
           (run_trace (sched_spawn_one ++ [Worker 0]) (initial b 0 empty_heap))
           s (Worker 0) (EvSetCheckRedirect 0)).
  - apply run_ok_reaches. vm_compute. eauto.
  - vm_compute. reflexivity.
  - vm_compute. reflexivity.
Defined.

(** ** The offset of a Result *)

Lemma last_request_snoc w tr e :
  last_request w (tr ++ [e]) =
  match e with
  | EvRequest w' s => if decide (w' = w) then Some s else last_request w tr
  | _ => last_request w tr
  end.
Proof. unfold last_request. rewrite foldl_app. by destruct e. Qed.

(** While worker [w] is inside [c.Do] or about to send, the reading it took
    at the start of the attempt is the one of its latest EvRequest. *)
Lemma reaches_offset b t0 h tr s :
  reaches (initial b t0 h) tr s ->
  forall w wk, st_pool s !! w = Some wk ->
  match w_pc wk with
  | WDo _ s0 => last_request w tr = Some s0
  | WSend r => last_request w tr = Some (offset r)
  | _ => True
  end.
Proof.
  induction 1 as [|tr s a e s' _ IH Hs]; intros w' wk' Hl'.
  { simpl in Hl'. by rewrite lookup_nil in Hl'. }
  rewrite last_request_snoc.
  destruct s as [b1 ctl done now hp cl wg pool crashed].
  step_cases Hs; simpl in *; subst; simpl in *.
  all: try (by apply IH).
  all: try (apply list_lookup_insert_Some in Hl' as [(-> & <- & Hlt)|(Hne & Hl')];
            [|try (case_decide; [congruence|]); by apply IH]).
  all: try (apply lookup_app_Some in Hl' as [Hl'|[_ Hl']];
            [by apply IH|apply list_lookup_singleton_Some in Hl' as [_ <-]; done]).
  all: simpl; try done; try (by case_decide).
  all: match goal with
       | Hl : _ !! ?w = Some ?wk, Hp : w_pc ?wk = _ |- _ =>
           specialize (IH w wk Hl); rewrite Hp in IH; done
       end.
Qed.

Lemma step_result a s w r s' :
  step a s = Some (EvResult w r, s') ->
  exists wk, st_pool s !! w = Some wk /\ w_pc wk = WSend r.
Proof. intros H. step_cases H; simplify_eq; eauto. Qed.


(** [Run] is called when [now()] reads 5 and the request starts at 8: the
    offset of the Result is 8, not 3. *)
Lemma offset_not_run_relative : ~ offset_run_relative.
Proof.
  intros H.
  set (b := demo_job 1 1 f64_zero false).
  set (init := initial b 5 empty_heap).
  set (acts := sched_spawn_one ++ [Worker 0; Worker 0; Clock 3; Worker 0; Worker 0;
                                   Clock 2; Network 0 [] (Resp 200 3)]).
  set (r := makeRequest_result 8 [] (Resp 200 3) 10).
  assert (Hr : reaches init (run_trace acts init ++ EvResult 0 r :: [])
                 (run_state (acts ++ [Worker 0]) init)).
  { replace (run_trace acts init ++ [EvResult 0 r])
      with (run_trace (acts ++ [Worker 0]) init) by (vm_compute; reflexivity).
    apply run_ok_reaches. vm_compute. eauto. }
  destruct (H b 5 empty_heap _ 0%nat r [] _ ltac:(by repeat split) Hr)
    as (t_req & t_run & H1 & H2 & H3).
  vm_compute in H1, H2. simplify_eq.
Qed.

Example offset_of_demo_run :
  let b := demo_job 1 1 f64_zero false in
  let acts := sched_spawn_one ++ [Worker 0; Worker 0; Clock 3] ++
              sched_request 2 (Resp 200 3) ++ sched_finish in
  let tr := run_trace acts (initial b 5 empty_heap) in
  let s := run_state acts (initial b 5 empty_heap) in
  st_ctl s = CEnd /\ Work.start (st_b s) = 5 /\ run_start tr = Some 5 /\
  last_request 0 tr = Some 8 /\ offset <$> pushed tr = [8].
Proof. vm_compute. repeat split. Qed.

(** C9 (amended): the offset of a pushed Result is the reading of [now()]
    that makeRequest took just before [c.Do], as it is: [b.start] is not
    subtracted from it. *)
Theorem offset_is_request_start (b : Work.t) (t0 : Duration) (h : heap)
    (tr1 : list event) (w : nat) (r : result) (tr2 : list event) (s : state) :
  reaches (initial b t0 h) (tr1 ++ EvResult w r :: tr2) s ->
  last_request w tr1 = Some (offset r).
Proof.
  intros Hr.
  destruct (reaches_prefix _ _ _ _ _ Hr) as (s1 & a & s1' & Hr1 & Hs1).
  destruct (step_result _ _ _ _ _ Hs1) as (wk & Hl & Hp).
  pose proof (reaches_offset _ _ _ _ _ Hr1 w wk Hl) as Ho.
  by rewrite Hp in Ho.
Qed.

Lemma offset_is_request_start_witness :
  let b := demo_job 1 1 f64_zero false in
  let acts := sched_spawn_one ++ [Worker 0; Worker 0; Clock 3; Worker 0; Worker 0;
                                  Clock 2; Network 0 [] (Resp 200 3)] in
  let r := makeRequest_result 8 [] (Resp 200 3) 10 in
  last_request 0 (run_trace acts (initial b 5 empty_heap)) = Some (offset r).
Proof.
  intros b acts r.
  apply (offset_is_request_start b 5 empty_heap _ 0%nat r []
           (run_state (acts ++ [Worker 0]) (initial b 5 empty_heap))).
  replace (run_trace acts (initial b 5 empty_heap) ++ [EvResult 0 r])
    with (run_trace (acts ++ [Worker 0]) (initial b 5 empty_heap))
    by (vm_compute; reflexivity).
  apply run_ok_reaches. vm_compute. eauto.
Defined.

(** ** A worker's loop *)








(** ** The throttle *)

Example period_qps_3 : new_throttle (demo_job 1 1 (f64_of_Z 3) false) = Some 333333000.
Proof. vm_compute. reflexivity. Qed.

Example period_qps_1e6 :
  new_throttle (demo_job 1 1 (f64_of_Z 1000000) false) = Some 1000.
Proof. vm_compute. reflexivity. Qed.

Example period_qps_unlimited : new_throttle (demo_job 1 1 f64_zero false) = None.
Proof. vm_compute. reflexivity. Qed.

Example period_qps_negative :
  new_throttle (demo_job 1 1 (SFopp (f64_of_Z 3)) false) = None.
Proof. vm_compute. reflexivity. Qed.

(** With QPS > 0 and a period of at least one nanosecond every worker gets
    a ticker of that period. *)
Lemma throttle_created b :
  f64_ltb f64_zero (Work.QPS b) = true -> 0 < throttle_period (Work.QPS b) ->
  new_throttle b = Some (throttle_period (Work.QPS b)).
Proof.
  intros Hq Hp. unfold new_throttle, time_Tick. rewrite Hq.
  destruct (Z.leb_spec (throttle_period (Work.QPS b)) 0); [lia|done].
Qed.

Lemma throttle_absent b :
  f64_ltb f64_zero (Work.QPS b) = false -> new_throttle b = None.
Proof. intros Hq. unfold new_throttle. by rewrite Hq. Qed.

(** The throttle of a worker that is past the entry of runWorker is the one
    computed from QPS, and a worker waits on it only if QPS > 0. *)
Lemma reaches_throttle b t0 h tr s :
  reaches (initial b t0 h) tr s ->
  forall w wk, st_pool s !! w = Some wk ->
  (w_pc wk <> WEntry -> w_throttle wk = new_throttle b) /\
  (w_pc wk = WGate -> f64_ltb f64_zero (Work.QPS b) = true).
Proof.
  intros Hr. pose proof (reaches_job _ _ _ Hr) as Hjob.
  pose proof (f_equal Work.QPS Hjob) as Hq. simpl in Hjob, Hq.
  assert (Hth : new_throttle (st_b s) = new_throttle b)
    by (unfold new_throttle; by rewrite Hq).
  clear Hjob. revert Hq Hth.
  induction Hr as [|tr s a e s' _ IH Hs]; intros Hq Hth w' wk' Hl'.
  { simpl in Hl'. by rewrite lookup_nil in Hl'. }
  pose proof (step_job _ _ _ _ Hs) as Hjob.
  pose proof (f_equal Work.QPS Hjob) as Hq'. simpl in Hq'.
  assert (Hth' : new_throttle (st_b s) = new_throttle b)
    by (unfold new_throttle in *; by rewrite <- Hq').
  rewrite Hq' in Hq. specialize (IH Hq Hth').
  destruct s as [b1 ctl done now hp cl wg pool crashed].
  step_cases Hs; simpl in *; subst; simpl in *.
  all: try (by eapply IH).
  all: try (apply list_lookup_insert_Some in Hl' as [(-> & <- & Hlt)|(Hne & Hl')];
            [|by eapply IH]).
  all: try (apply lookup_app_Some in Hl' as [Hl'|[_ Hl']];
            [by eapply IH|apply list_lookup_singleton_Some in Hl' as [_ <-]; done]).
  all: simpl; try (split; [done|]; try done; intros _; congruence).
  all: match goal with
       | Hl : _ !! ?w = Some ?wk, Hp : w_pc ?wk = _ |- _ =>
           destruct (IH w wk Hl) as [IH1 IH2]; rewrite Hp in IH1, IH2
       end.
  all: split; [intros _; by apply IH1|intros; try done].
  all: by rewrite <- Hq.
Qed.

(** The throttle wait comes before the call: a worker enters makeRequest
    from the loop head only when QPS is not positive, and from the wait
    otherwise. *)
Lemma call_after_gate a s e s' w wk wk' :
  step a s = Some (e, s') ->
  st_pool s !! w = Some wk -> st_pool s' !! w = Some wk' ->
  w_pc wk' = WCall -> w_pc wk <> WCall ->
  a = Worker w /\
  (w_pc wk = WGate /\ e = EvTick w \/
   w_pc wk = WLoop /\ f64_ltb f64_zero (Work.QPS (st_b s)) = false).
Proof.
  intros Hs Hl Hl' Hp' Hp.
  pose proof (lookup_lt_Some _ _ _ Hl) as Hlt.
  destruct s as [b1 ctl done now hp cl wg pool crashed].
  step_cases Hs; simpl in *; simplify_eq.
  all: try (rewrite lookup_app_l in Hl' by done; simplify_eq).
  all: match type of Hl' with
       | <[?w' := _]> _ !! _ = _ => destruct (decide (w' = w)) as [->|Hne]
       end.
  all: try (rewrite list_lookup_insert_ne in Hl' by done; simplify_eq).
  all: rewrite list_lookup_insert_eq in Hl' by done; simplify_eq; simpl in *.
  all: try done; auto.
Qed.



(** When QPS is positive but the period comes out as zero or less, the
    throttle is the nil channel although the loop still waits on it: no
    worker ever gets to makeRequest. *)
Lemma nil_throttle_blocks b t0 h tr s :
  f64_ltb f64_zero (Work.QPS b) = true -> new_throttle b = None ->
  reaches (initial b t0 h) tr s ->
  (forall w wk, st_pool s !! w = Some wk -> quiet wk) /\
  tally is_request tr = 0 /\ tally is_result tr = 0.
Proof.
  intros Hq Hnil Hr.
  induction Hr as [|tr s a e s' Hr (IH & IH1 & IH2) Hs].
  { split; [|done]. intros w wk Hl. simpl in Hl. by rewrite lookup_nil in Hl. }
  pose proof (reaches_job _ _ _ Hr) as Hjob.
  pose proof (f_equal Work.QPS Hjob) as Hq'. simpl in Hq'.
  pose proof (reaches_throttle _ _ _ _ _ Hr) as Hth.
  rewrite !tally_snoc.
  destruct s as [b1 ctl done now hp cl wg pool crashed].
  step_cases Hs; simpl in *; subst; simpl in *.
  all: try (split; [|lia]; by auto).
  all: try (split; [|lia]; intros w' wk' Hl';
            apply lookup_app_Some in Hl' as [Hl'|[_ Hl']]; [by eapply IH|];
            apply list_lookup_singleton_Some in Hl' as [_ <-]; done).
  all: try (split; [|lia]; intros w' wk' Hl';
            apply list_lookup_insert_Some in Hl' as [(-> & <- & Hlt)|(Hne & Hl')];
            [done|by eapply IH]).
  all: try congruence.
  all: match goal with
       | Hl : _ !! ?w = Some ?wk, Hp : w_pc ?wk = _ |- _ =>
           pose proof (IH w wk Hl) as Hquiet; unfold quiet in Hquiet;
           destruct (Hth w wk Hl) as [Hth1 _]; rewrite Hp in Hquiet, Hth1
       end; try done.
  all: rewrite Hnil in Hth1; specialize (Hth1 ltac:(done)); congruence.
Qed.

(** C6, at QPS = 2,000,000: the period 1e6/QPS truncates to 0, time.Tick
    returns the nil channel, and the worker blocks on it for ever: no
    request is issued, and a run that is not cancelled never gets past
    wg.Wait(). *)
Theorem qps_above_1e6_blocks :
  let b := demo_job 1 1 (f64_of_Z 2000000) false in
  f64_ltb f64_zero (Work.QPS b) = true /\
  throttle_period (Work.QPS b) = 0 /\
  new_throttle b = None /\
  forall t0 h tr s, reaches (initial b t0 h) tr s ->
    tally is_request tr = 0 /\ tally is_result tr = 0 /\
    (EvCtxCancel ∉ tr -> past_wait (st_ctl s) = false).
Proof.
  intros b.
  assert (Hq : f64_ltb f64_zero (Work.QPS b) = true) by (vm_compute; reflexivity).
  assert (Hnil : new_throttle b = None) by (vm_compute; reflexivity).
  split; [done|]. split; [vm_compute; reflexivity|]. split; [done|].
  intros t0 h tr s Hr.
  destruct (nil_throttle_blocks b t0 h tr s Hq Hnil Hr) as (_ & H1 & H2).
  split; [done|]. split; [done|]. intros Hnc.
  destruct (past_wait (st_ctl s)) eqn:Hp; [|done].
  destruct (pushed_accounting b t0 h tr s) as (_ & _ & _ & _ & _ & Hend & _);
    [by repeat split|simpl; unfold max_int; lia..|done|done|].
  destruct (Hend Hp) as [_ HN]. rewrite H2 in HN. discriminate HN.
Qed.

Example period_qps_1000001 :
  new_throttle (demo_job 1 1 (f64_of_Z 1000001) false) = None.
Proof. vm_compute. reflexivity. Qed.

(** ** A run of a live job ends *)


Section Progress.
Variable b0 : Work.t.
Hypothesis b0_fresh : fresh b0.
Hypothesis N_range : 0 <= Work.N b0 <= max_int.
Hypothesis C_range : 1 <= Work.C b0 <= max_int.
Hypothesis b0_live : live b0.




Lemma pending_nonneg wk : 0 <= pending wk.
Proof. unfold pending. destruct (w_pc wk); lia. Qed.

(** A run that has not ended is not stuck: some goroutine can move. *)
Lemma progress tr s :
  Inv b0 tr s ->
  (forall w wk, st_pool s !! w = Some wk ->
     (w_pc wk <> WEntry -> w_throttle wk = new_throttle b0) /\
     (w_pc wk = WGate -> f64_ltb f64_zero (Work.QPS b0) = true)) ->
  st_crashed s = false -> st_ctl s <> CEnd ->
  exists a e s', program a = true /\ step a s = Some (e, s').
Proof.
  intros HI Hth Hcr Hend. destruct b0_live as (Lcap & Lreq & Lnew & Lth).
  destruct s as [b ctl done now hp cl wg pool crashed].
  destruct HI as [Hjob Hfresh Hlen Hsum Hspawn Hwg Hwaited Hwk Hnc Hchan
                  Hrep Hcl Hres Hreq Hdel Hclose Hret Hcan].
  simpl in *. subst crashed.
  assert (Hctl : forall e s', controller_step
                   {| st_b := b; st_ctl := ctl; st_ctx_done := done; st_now := now;
                      st_heap := hp; st_client := cl; st_wg := wg; st_pool := pool;
                      st_crashed := false |} = Some (e, s') ->
                 exists a e s', program a = true /\
                   step a {| st_b := b; st_ctl := ctl; st_ctx_done := done;
                             st_now := now; st_heap := hp; st_client := cl;
                             st_wg := wg; st_pool := pool; st_crashed := false |}
                   = Some (e, s')).
  { intros e s' H. by exists Controller, e, s'. }
  destruct ctl; try done.
  all: try (unfold controller_step, panic in Hctl; simpl in Hctl;
            repeat case_match; eapply Hctl; reflexivity).
  - (* wg.Wait() *)
    destruct (Z.eqb_spec wg 0) as [Hz|Hnz].
    { apply (Hctl EvWaited (with_ctl CCancel
               {| st_b := b; st_ctl := CWait; st_ctx_done := done; st_now := now;
                  st_heap := hp; st_client := cl; st_wg := wg; st_pool := pool;
                  st_crashed := false |})).
      unfold controller_step. simpl. by rewrite Hz. }
    clear Hctl. simpl in *.
    assert (0 <= tally pending pool).
    { apply tally_nonneg, Forall_forall. intros; apply pending_nonneg. }
    destruct (tally_pos_in pending pool) as (w & wk & Hl & Hp); [lia|].
    destruct (Hth w wk Hl) as [Hth1 Hth2].
    destruct (w_pc wk) eqn:Hpc; unfold pending in Hp; rewrite Hpc in Hp; try lia.
    all: try (exists (Worker w); unfold step, worker_step, panic; simpl;
              rewrite Hl, Hpc; repeat case_match; eauto; fail).
    + (* the DisableRedirects test *)
      destruct (Hcl eq_refl) as [c Hc]. subst cl.
      exists (Worker w). unfold step, worker_step; simpl. rewrite Hl, Hpc.
      repeat case_match; eauto.
    + (* <-throttle *)
      specialize (Hth1 ltac:(done)). specialize (Lth (Hth2 eq_refl)).
      exists (Worker w). unfold step, worker_step; simpl. rewrite Hl, Hpc, Hth1.
      destruct (new_throttle b0); [eauto|done].
    + (* c.Do *)
      exists (Network w [] (Fail "")). unfold step, network_step; simpl.
      rewrite Hl, Hpc. eauto.
    + (* the send *)
      destruct (Work.results b) as [ch|] eqn:Hch; [|done].
      destruct Hchan as (_ & Hcap & Hopen). simpl in Hopen.
      destruct (Work.report b) as [rp|] eqn:Hrp; [|done].
      destruct Hrep as (_ & Hrun & Hdone).
      assert (rp_done rp = false) as Hnd.
      { destruct (rp_done rp); [|done]. by destruct (Hdone eq_refl). }
      destruct (Z.ltb_spec (Z.of_nat (length (ch_buf ch))) (ch_cap ch)) as [Hroom|Hfull].
      * exists (Worker w). unfold step, worker_step, send_step; simpl.
        rewrite Hl, Hpc, Hch, Hopen. apply Z.ltb_lt in Hroom. rewrite Hroom. eauto.
      * destruct (Z.eqb_spec (ch_cap ch) 0) as [Hzero|Hpos].
        -- exists (Worker w). unfold step, worker_step, send_step, receiving; simpl.
           rewrite Hl, Hpc, Hch, Hopen, Hrp, Hrun, Hnd. apply Z.ltb_ge in Hfull.
           rewrite Hfull. apply Z.eqb_eq in Hzero. rewrite Hzero. simpl. eauto.
        -- exists Reporter. unfold step, reporter_step; simpl.
           rewrite Hch, Hrp, Hrun, Hnd. simpl.
           destruct (ch_buf ch); [simpl in Hfull; lia|eauto].
  - (* <-b.report.done *)
    clear Hctl. simpl in *.
    destruct (Work.results b) as [ch|] eqn:Hch; [|done].
    destruct Hchan as (_ & Hcap & Hopen). simpl in Hopen.
    destruct (Work.report b) as [rp|] eqn:Hrp; [|done].
    destruct Hrep as (_ & Hrun & Hdone).
    destruct (rp_done rp) eqn:Hd.
    + exists Controller. unfold step, controller_step; simpl. rewrite Hrp, Hd. eauto.
    + exists Reporter. unfold step, reporter_step; simpl.
      rewrite Hch, Hrp, Hrun, Hd, Hopen. simpl. destruct (ch_buf ch); eauto.
Qed.




End Progress.




(** ** Completeness of a run *)


Lemma demo_job_live : live (demo_job 1 1 f64_zero false).
Proof.
  split; [vm_compute; discriminate|]. split; [done|]. split; [|done].
  intros h. unfold new_request. simpl. by destruct (cloneRequest _ _ _).
Qed.



Lemma close_after_workers_witness :
  let b := demo_job 1 1 f64_zero false in
  let tr := run_trace (sched_one (Resp 200 3)) (initial b 5 empty_heap) in
  let s := run_state (sched_one (Resp 200 3)) (initial b 5 empty_heap) in
  (forall tr1 tr2, tr = tr1 ++ EvClose :: tr2 ->
     (EvWaited ∈ tr1) /\
     (forall w, (w < Z.to_nat (Work.C b))%nat -> exists c, EvReturn w c ∈ tr1) /\
     (EvClose ∉ tr1) /\ (EvClose ∉ tr2)) /\
  (forall tr1 tr2, tr = tr1 ++ EvAwaited :: tr2 -> EvClose ∈ tr1) /\
  (forall total, st_ctl s = CAwait total ->
     exists ch, Work.results (st_b s) = Some ch /\ ch_closed ch = true) /\
  (st_ctl s = CEnd -> tally is_close tr = 1).
Proof.
  intros b tr s.
  apply (close_after_workers b 5 empty_heap tr s).
  - by repeat split.
  - simpl. unfold max_int. lia.
  - simpl. unfold max_int. lia.
  - apply run_ok_reaches. vm_compute. eauto.
Defined.



(** * Further properties *)

(** ** The shares in closed form *)

(** With [k] workers still to serve and [left = q * k + r], [0 <= r <= k],
    the loop gives [q] to the next [k - r] workers and [q + 1] to the
    last [r]. *)
Lemma spawn_loop_closed fuel : forall C i left q r,
  0 <= i -> 1 <= C - i -> C <= max_int -> (Z.to_nat (C - i - 1) <= fuel)%nat ->
  0 <= q -> 0 <= r <= C - i -> left = q * (C - i) + r -> left <= max_int ->
  (spawn_loop fuel C i left).1 ++ [(spawn_loop fuel C i left).2]
  = replicate (Z.to_nat (C - i - r)) q ++ replicate (Z.to_nat r) (q + 1).
Proof.
  induction fuel as [|fuel IH]; intros C i left q r Hi Hk HC Hf Hq Hr Hl Hmax; simpl.
  - assert (C - i = 1) as Hk1 by lia. rewrite Hk1 in *.
    assert (r = 0 \/ r = 1) as [->| ->] by lia; simpl; f_equal; lia.
  - rewrite (int_sub_id C 1) by int_range.
    destruct (Z.ltb_spec i (C - 1)) as [Hlt|Hge].
    + rewrite (int_sub_id C i) by int_range.
      rewrite (int_add_id i 1) by int_range.
      assert (Hquot : Z.quot left (C - i) = if decide (r = C - i) then q + 1 else q).
      { rewrite Z.quot_div_nonneg by nia. destruct (decide (r = C - i)) as [->|Hne].
        - replace left with ((q + 1) * (C - i)) by lia. apply Z.div_mul. lia.
        - symmetry. apply (Z.div_unique_pos left (C - i) q r); lia. }
      rewrite (int_quot_id left (C - i)) by (rewrite Hquot; case_decide; int_range).
      rewrite Hquot.
      destruct (decide (r = C - i)) as [Hr'|Hr'].
      * rewrite (int_sub_id left (q + 1)) by int_range.
        specialize (IH C (i + 1) (left - (q + 1)) q (r - 1)
                      ltac:(lia) ltac:(lia) HC ltac:(lia) Hq ltac:(lia) ltac:(nia) ltac:(lia)).
        destruct (spawn_loop fuel C (i + 1) (left - (q + 1))) as [ns last].
        simpl in *. rewrite IH.
        replace (Z.to_nat (C - (i + 1) - (r - 1))) with 0%nat by lia.
        replace (Z.to_nat (C - i - r)) with 0%nat by lia.
        replace (Z.to_nat r) with (S (Z.to_nat (r - 1))) by lia. done.
      * rewrite (int_sub_id left q) by int_range.
        specialize (IH C (i + 1) (left - q) q r
                      ltac:(lia) ltac:(lia) HC ltac:(lia) Hq ltac:(lia) ltac:(nia) ltac:(lia)).
        destruct (spawn_loop fuel C (i + 1) (left - q)) as [ns last].
        simpl in *. rewrite IH.
        replace (Z.to_nat (C - i - r)) with (S (Z.to_nat (C - (i + 1) - r))) by lia.
        done.
    + assert (C - i = 1) as Hk1 by lia. rewrite Hk1 in *. simpl.
      assert (r = 0 \/ r = 1) as [->| ->] by lia; simpl; f_equal; lia.
Qed.

(** X1: the shares in closed form: with N = q * C + r, 0 <= r < C, the
    first C - r workers started get q requests each and the last r get
    q + 1, so that the shares never decrease along the order in which the
    workers are started. *)
Theorem shares_closed_form (N C : Z) :
  0 <= N <= max_int -> 1 <= C <= max_int ->
  shares N C = replicate (Z.to_nat (C - N mod C)) (N / C)
               ++ replicate (Z.to_nat (N mod C)) (N / C + 1).
Proof.
  intros HN HC. unfold shares.
  pose proof (Z.div_mod N C ltac:(lia)) as Hdm.
  pose proof (Z.mod_pos_bound N C ltac:(lia)) as Hmod.
  pose proof (spawn_loop_closed (Z.to_nat C) C 0 N (N / C) (N mod C)) as H.
  assert (0 <= N / C) by (apply Z.div_pos; lia).
  specialize (H ltac:(lia) ltac:(lia) ltac:(lia) ltac:(lia) ltac:(lia)
                ltac:(lia) ltac:(lia) ltac:(lia)).
  destruct (spawn_loop (Z.to_nat C) C 0 N) as [ns last]. simpl in H.
  rewrite H. by rewrite !Z.sub_0_r.
Qed.

Lemma shares_closed_form_witness :
  shares 11 4 = replicate (Z.to_nat (4 - 11 mod 4)) (11 / 4)
                ++ replicate (Z.to_nat (11 mod 4)) (11 / 4 + 1).
Proof. apply (shares_closed_form 11 4); unfold max_int; lia. Defined.

Example shares_11_4 : shares 11 4 = [2; 3; 3; 3].
Proof. reflexivity. Qed.

Example shares_2_5 : shares 2 5 = [0; 0; 0; 1; 1].
Proof. reflexivity. Qed.

(** ** Init with a size that make refuses *)

(** X3: when the int product C * 1000 is negative (C negative, or so
    large that the product wraps around), the first Init panics in make
    and leaves b.results as it was; sync.Once has recorded the call all the
    same, so every later Init returns at once and never makes the channel;
    Run stops at its call of Init. *)
Theorem Init_panics_once (b : Work.t) (k : nat) :
  Work.initOnce b = false -> int_mul (Work.C b) 1000 < 0 ->
  let b1 := Work.set_init true (Work.results b) b in
  Init b = Panics b1 "makechan: size out of range" /\
  Work.results b1 = Work.results b /\
  Init_times (S k) b1 = Returns b1 /\
  Init_makes (S k) b = 0%nat /\ Init_makes (S k) b1 = 0%nat /\
  (forall s, st_b s = b -> st_ctl s = CInit ->
     controller_step s
       = Some (EvPanic "makechan: size out of range", crash (with_b b1 s))).
Proof.
  intros Hd Hneg b1.
  assert (HI : Init b = Panics b1 "makechan: size out of range").
  { unfold Init, make_chan. rewrite Hd, min_Zmin.
    destruct (Z.ltb_spec (Z.min (int_mul (Work.C b) 1000) maxResult) 0); [done|lia]. }
  assert (Hb1 : Work.initOnce b1 = true) by done.
  destruct (Init_times_done (S k) b1 Hb1) as [Ht Hm].
  split; [done|]. split; [done|]. split; [done|].
  split; [simpl; by rewrite HI|]. split; [done|].
  intros s Hb Hc. unfold controller_step. by rewrite Hc, Hb, HI.
Qed.

Lemma Init_panics_once_witness :
  let b := Work.mk None [] None 10 (-1) false false false 0 f64_zero
             false false false "" None false None 0 None in
  let b1 := Work.set_init true (Work.results b) b in
  Init b = Panics b1 "makechan: size out of range" /\
  Work.results b1 = Work.results b /\
  Init_times 3 b1 = Returns b1 /\
  Init_makes 3 b = 0%nat /\ Init_makes 3 b1 = 0%nat /\
  (forall s, st_b s = b -> st_ctl s = CInit ->
     controller_step s
       = Some (EvPanic "makechan: size out of range", crash (with_b b1 s))).
Proof.
  apply (Init_panics_once
           (Work.mk None [] None 10 (-1) false false false 0 f64_zero
              false false false "" None false None 0 None) 2).
  - reflexivity.
  - vm_compute. reflexivity.
Defined.

(** ** makeRequest: the durations the hooks write *)

Lemma fire_unfired (evs : list trace_event) : forall v,
  let v' := foldl fire v evs in
  (fired is_DNSDone evs = false -> v_dnsDuration v' = v_dnsDuration v) /\
  (fired is_new_conn evs = false -> v_connDuration v' = v_connDuration v) /\
  (fired is_WroteRequest evs = false -> v_reqDuration v' = v_reqDuration v) /\
  (fired is_first_byte evs = false ->
     v_delayDuration v' = v_delayDuration v /\ resStart v' = resStart v).
Proof.
  unfold fired. induction evs as [|e evs IH]; intros v; cbv zeta; simpl; [done|].
  destruct (IH (fire v e)) as (H1 & H2 & H3 & H4).
  split; [|split; [|split]]; intros [He Hevs]%orb_false_elim.
  - rewrite (H1 Hevs). by destruct e.
  - rewrite (H2 Hevs). destruct e as [| | |[]| |]; done.
  - rewrite (H3 Hevs). by destruct e.
  - destruct (H4 Hevs) as [Ha Hb]. rewrite Ha, Hb. by destruct e.
Qed.

(** X4: a hook that did not fire during c.Do leaves its duration at zero:
    no DNSDone, no dnsDuration; only reused connections, no connDuration;
    no WroteRequest, no reqDuration; no first response byte, no
    delayDuration, and then resDuration is not an interval but the whole
    reading of now() after c.Do, since resStart is still zero. *)
Theorem unfired_hooks (s : Duration) (evs : list trace_event)
    (resp : response) (t : Duration) :
  let r := makeRequest_result s evs resp t in
  (fired is_DNSDone evs = false -> dnsDuration r = 0) /\
  (fired is_new_conn evs = false -> connDuration r = 0) /\
  (fired is_WroteRequest evs = false -> reqDuration r = 0) /\
  (fired is_first_byte evs = false ->
     delayDuration r = 0 /\ (in_int t -> resDuration r = t)).
Proof.
  destruct (fire_unfired evs zero_locals) as (H1 & H2 & H3 & H4).
  unfold makeRequest_result; simpl.
  split; [exact H1|]. split; [exact H2|]. split; [exact H3|].
  intros H. destruct (H4 H) as [Hd Hr]. split; [exact Hd|].
  intros Ht. rewrite Hr. simpl. rewrite int_sub_id; rewrite Z.sub_0_r; done.
Qed.

Example connection_refused :
  let r := makeRequest_result 100 [GetConn 101] (Fail "connection refused") 130 in
  duration r = 30 /\ resDuration r = 130 /\ connDuration r = 0.
Proof. vm_compute. done. Qed.

(** ** Run without a request template *)




(** ** The results channel *)

Lemma reaches_cap b t0 h tr s :
  fresh b -> reaches (initial b t0 h) tr s ->
  forall ch, Work.results (st_b s) = Some ch ->
  ch_cap ch = min (int_mul (Work.C (st_b s)) 1000) maxResult.
Proof.
  intros (Hi & Hr & Hp).
  induction 1 as [|tr s a e s' _ IH Hs]; intros ch Hch.
  { simpl in Hch. congruence. }
  destruct s as [b1 ctl done now hp cl wg pool crashed].
  step_cases Hs; simpl in *; subst; simpl in *; auto.
  all: unfold Init, make_chan in *; repeat (case_match; simplify_eq); simpl in *; auto.
  all: simplify_eq; simpl; try done.
  all: try (by erewrite <- IH by done).
Qed.

(** X6: the results channel keeps the capacity Init gave it,
    min(C * 1000, 32000000) on ints, and never holds more Results than
    that: a worker whose send finds it full waits. *)
Theorem results_buffer_bounded (b : Work.t) (t0 : Duration) (h : heap)
    (tr : list event) (s : state) (ch : chan) :
  fresh b -> reaches (initial b t0 h) tr s ->
  Work.results (st_b s) = Some ch ->
  ch_cap ch = min (int_mul (Work.C b) 1000) maxResult /\
  Z.of_nat (length (ch_buf ch)) <= ch_cap ch /\ ch_cap ch <= 32000000 /\
  (forall w wk r, st_pool s !! w = Some wk -> w_pc wk = WSend r ->
     ch_closed ch = false -> Z.of_nat (length (ch_buf ch)) = ch_cap ch ->
     0 < ch_cap ch -> step (Worker w) s = None).
Proof.
  intros Hf Hr Hch.
  pose proof (reaches_cap b t0 h tr s Hf Hr ch Hch) as Hcap.
  pose proof (f_equal Work.C (reaches_job _ _ _ Hr)) as HC. simpl in HC.
  destruct (reaches_pushed b t0 h tr s Hf Hr) as (_ & Hlen & _).
  rewrite Hch in Hlen. rewrite HC in Hcap.
  split; [done|]. split; [done|]. split.
  - rewrite Hcap, min_Zmin. unfold maxResult. lia.
  - intros w wk r Hl Hpc Hcl Hfull Hpos.
    unfold step, worker_step, send_step.
    destruct (st_crashed s); [done|]. rewrite Hl, Hpc, Hch, Hcl.
    destruct (Z.ltb_spec (Z.of_nat (length (ch_buf ch))) (ch_cap ch)); [lia|].
    destruct (Z.eqb_spec (ch_cap ch) 0); [lia|]. done.
Qed.

(** ** No panic *)




(** ** The requests that are issued *)


(** ** After the cancellation *)

Lemma step_done a s e s' :
  step a s = Some (e, s') -> st_ctx_done s = true -> st_ctx_done s' = true.
Proof.
  intros H Hd. destruct s as [b1 ctl done now hp cl wg pool crashed].
  step_cases H; simpl in *; done.
Qed.

(** X9: once the context is cancelled, the only requests still issued are
    those of workers that had already passed the select of their current
    iteration (they are waiting for the throttle or about to call
    makeRequest): one each at most, and none by a worker started later. *)
Theorem requests_after_cancel (s1 : state) (tr : list event) (s2 : state) :
  st_ctx_done s1 = true -> reaches s1 tr s2 ->
  st_ctx_done s2 = true /\
  tally is_request tr + tally past_check (st_pool s2) <= tally past_check (st_pool s1) /\
  tally is_request tr <= Z.of_nat (length (st_pool s1)).
Proof.
  intros Hd Hr.
  assert (Hle : forall l, tally past_check l <= Z.of_nat (length l)).
  { induction l as [|x l IH]; [done|]. unfold tally in *. csimpl.
    unfold past_check at 1. destruct (w_pc x); lia. }
  assert (Hge : forall l, 0 <= tally past_check l).
  { intros l. apply tally_nonneg, Forall_forall. intros x _.
    unfold past_check. destruct (w_pc x); lia. }
  enough (st_ctx_done s2 = true /\
          tally is_request tr + tally past_check (st_pool s2)
            <= tally past_check (st_pool s1)) as [H1 H2].
  { split; [done|]. split; [done|]. specialize (Hle (st_pool s1)).
    specialize (Hge (st_pool s2)). lia. }
  induction Hr as [|tr s a e s' _ [IH1 IH2] Hs]; [split; [done|rewrite tally_nil; lia]|].
  split; [by eapply step_done|].
  rewrite tally_snoc.
  destruct s as [b1 ctl done now hp cl wg pool crashed].
  step_cases Hs; simpl in *; subst; simpl in *; try lia.
  all: tally_rw; unfold past_check, new_worker, next_iteration, with_pc in *;
       simpl in *; open_worker; simpl in *; try lia.
  all: repeat match goal with E : w_pc ?x = _ |- _ => rewrite E in * end; try lia.
Qed.

(** ** The clock *)

Lemma totals_snoc tr e :
  totals (tr ++ [e]) = totals tr ++ match e with EvTotal t => [t] | _ => [] end.
Proof. unfold totals. rewrite omap_app. by destruct e. Qed.

Lemma timed_later start now now' r :
  now <= now' -> timed start now r -> timed start now' r.
Proof. unfold timed. lia. Qed.

Lemma worker_timed_later start now now' wk :
  now <= now' -> worker_timed start now wk -> worker_timed start now' wk.
Proof.
  unfold worker_timed. intros H. destruct (w_pc wk); try done; [lia|].
  by apply timed_later.
Qed.

Ltac open_Init :=
  try match goal with
      | H : Init ?b = _ |- _ =>
          unfold Init in H; destruct (Work.initOnce b);
          [|destruct (make_chan _)]; simplify_eq; simpl in *
      end.

Lemma stamped_of_pool C ctl (pool : list worker) w wk :
  Z.of_nat (length pool) = spawned C ctl -> pool !! w = Some wk ->
  stamped ctl = true /\ reported ctl = true.
Proof.
  intros Hlen Hl. apply lookup_lt_Some in Hl.
  destruct ctl; simpl in *; try done; lia.
Qed.

Lemma Timing_step b0 tr s a e s' :
  Inv b0 tr s -> Timing tr s -> step a s = Some (e, s') ->
  (forall dt, a = Clock dt -> st_now s + dt <= max_int) ->
  Timing (tr ++ [e]) s'.
Proof.
  intros HI [Tn Ts Te Tw Tp Tt] H Hclk.
  prelude HI H.
  all: open_Init.
  all: try match goal with
       | Hl : _ !! _ = Some _ |- _ =>
           destruct (stamped_of_pool _ _ _ _ _ Hlen Hl) as [Hst _];
           pose proof (Forall_lookup_1 _ _ _ _ Tw Hl) as Hwt;
           unfold worker_timed in Hwt; simpl in Hwt;
           specialize (Ts Hst)
       end.
  all: try match goal with
       | Hd : (0 <=? ?dt) = true |- _ =>
           apply Z.leb_le in Hd; specialize (Hclk dt eq_refl); simpl in Hclk;
           rewrite (int_add_id _ dt) by int_range
       end.
  all: split; simpl; rewrite ?pushed_snoc, ?totals_snoc; simpl; rewrite ?app_nil_r.
  all: try assumption.
  all: try done.
  all: try (intros _; apply Ts; done).
  all: try (intros total Hin; destruct (Tt total Hin) as (? & ? & ? & ?); done).
  all: try (apply Forall_insert; [assumption|]; unfold worker_timed; simpl; done).
  all: try (apply Forall_app; split; [assumption|]; repeat constructor; done).
  all: try (intros _; lia).
  all: try (empty_pool; constructor; fail).
  all: try (rewrite (Te eq_refl); constructor; fail).
  all: try (rewrite Hst; done).
  all: try (apply Forall_app; split; [assumption|]; repeat constructor; assumption).
  all: try (intros total Hin; destruct (Tt total Hin) as (Hpw & _);
            specialize (Hwaited Hpw); unfold pending in *; simpl in *; lia).
  all: try (eapply Forall_impl; [eassumption|]; intros ? ?;
            (eapply worker_timed_later || eapply timed_later); [|eassumption]; lia).
  all: try lia.
  all: try (apply Forall_app; split; [assumption|]; apply Forall_singleton; exact Hwt).
  all: try (apply Forall_insert; [assumption|];
            unfold worker_timed, timed, makeRequest_result; simpl;
            rewrite ?int_sub_id by int_range; lia).
  all: try (intros Hst; specialize (Ts Hst); lia).
  all: try (intros total Hin; destruct (Tt total Hin) as (? & ? & ? & ?);
            repeat split; try done; lia).
  intros total [Hin|Hin%list_elem_of_singleton]%elem_of_app.
  - destruct (Tt total Hin) as (? & ? & ? & ?); done.
  - subst. specialize (Ts eq_refl). rewrite int_sub_id by int_range.
    split; [done|]. split; [lia|]. split; [lia|].
    eapply Forall_impl; [exact Tp|]. unfold timed. intros r Hr. lia.
Qed.

Lemma elapsed_cons a acts :
  elapsed (a :: acts) = match a with Clock dt => dt | _ => 0 end + elapsed acts.
Proof. unfold elapsed, tally. by csimpl. Qed.

Lemma step_clock a s e s' :
  step a s = Some (e, s') -> 0 <= st_now s ->
  st_now s + match a with Clock dt => dt | _ => 0 end <= max_int ->
  0 <= match a with Clock dt => dt | _ => 0 end /\
  st_now s' = st_now s + match a with Clock dt => dt | _ => 0 end.
Proof.
  intros H H0 Hle. destruct s as [b1 ctl done now hp cl wg pool crashed].
  step_cases H; simpl in *; try lia.
  match goal with Hd : (0 <=? _) = true |- _ => apply Z.leb_le in Hd end.
  rewrite int_add_id by int_range. lia.
Qed.

Lemma elapsed_nonneg acts : forall s tr s',
  run acts s = Some (tr, s') -> 0 <= elapsed acts.
Proof.
  induction acts as [|a acts IH]; intros s tr s' H; [done|].
  rewrite elapsed_cons. simpl in H.
  destruct (step a s) as [[e s1]|] eqn:Hs; [|done].
  destruct (run acts s1) as [[tr1 s2]|] eqn:Hr; [|done].
  specialize (IH _ _ _ Hr).
  assert (0 <= match a with Clock dt => dt | _ => 0 end); [|lia].
  unfold step in Hs. destruct (st_crashed s); [done|].
  destruct a; try lia. destruct (Z.leb_spec 0 dt); [lia|done].
Qed.

Lemma run_Timing b0 acts :
  fresh b0 -> 0 <= Work.N b0 <= max_int -> 1 <= Work.C b0 <= max_int ->
  forall tr0 s tr s',
  Inv b0 tr0 s -> Timing tr0 s -> st_now s + elapsed acts <= max_int ->
  run acts s = Some (tr, s') ->
  Timing (tr0 ++ tr) s' /\ st_now s' = st_now s + elapsed acts.
Proof.
  intros Hf HN HC.
  induction acts as [|a acts IH]; intros tr0 s tr s' HI HT Hle H; simpl in H.
  { injection H as <- <-. rewrite app_nil_r. split; [done|].
    unfold elapsed. rewrite tally_nil. lia. }
  destruct (step a s) as [[e s1]|] eqn:Hs; [|done].
  destruct (run acts s1) as [[tr1 s2]|] eqn:Hr; [|done].
  injection H as <- <-. rewrite elapsed_cons in *.
  pose proof (elapsed_nonneg _ _ _ _ Hr) as Hnn.
  pose proof (tm_now _ _ HT) as Hnow.
  destruct (step_clock _ _ _ _ Hs ltac:(lia) ltac:(lia)) as [Hdt Hs1].
  assert (HT1 : Timing (tr0 ++ [e]) s1).
  { eapply Timing_step; eauto. intros dt ->. lia. }
  assert (HI1 : Inv b0 (tr0 ++ [e]) s1) by (eapply Inv_step; eauto).
  destruct (IH (tr0 ++ [e]) s1 tr1 s2 HI1 HT1 ltac:(lia) Hr) as [HT2 Hn2].
  rewrite <- app_assoc in HT2. simpl in HT2. split; [done|lia].
Qed.

(** X10: with a clock that does not run past the int64 range, every
    Result pushed has an offset no earlier than b.start, a duration that
    is not negative, and an end (offset + duration) no later than the
    present; and the total that finish computes covers every one of
    them: each request ended within [b.start, b.start + total], so none
    took longer than the total. *)
Theorem durations_within_total (b : Work.t) (t0 : Duration) (h : heap)
    (acts : list action) (tr : list event) (s : state) :
  fresh b -> 0 <= Work.N b <= max_int -> 1 <= Work.C b <= max_int ->
  0 <= t0 -> t0 + elapsed acts <= max_int ->
  run acts (initial b t0 h) = Some (tr, s) ->
  st_now s = t0 + elapsed acts /\
  (forall r, r ∈ pushed tr ->
     Work.start (st_b s) <= offset r /\ 0 <= duration r /\
     offset r + duration r <= st_now s) /\
  (forall total r, total ∈ totals tr -> r ∈ pushed tr ->
     0 <= duration r <= total /\
     offset r + duration r <= Work.start (st_b s) + total).
Proof.
  intros Hf HN HC H0 Hle Hrun.
  assert (HT0 : Timing [] (initial b t0 h)).
  { split; simpl; try done; try (by constructor).
    - pose proof (elapsed_nonneg _ _ _ _ Hrun). lia.
    - intros total Hin. by apply elem_of_nil in Hin. }
  assert (HI0 : Inv b [] (initial b t0 h)) by (by apply Inv_initial).
  destruct (run_Timing b acts Hf HN HC [] _ tr s HI0 HT0 Hle Hrun)
    as [[Tn Ts Te Tw Tp Tt] Hnow]. simpl in *.
  split; [done|]. split.
  - intros r Hr. rewrite Forall_forall in Tp. exact (Tp r Hr).
  - intros total r Hin Hr. destruct (Tt total Hin) as (_ & Ht0 & Ht1 & Hall).
    rewrite Forall_forall in Hall, Tp. specialize (Hall r Hr).
    destruct (Tp r Hr) as (H1 & H2 & H3). lia.
Qed.

(** ** The concurrency level *)

Lemma flying_le_length (l : list worker) :
  0 <= tally flying l <= Z.of_nat (length l).
Proof.
  induction l as [|x l IH]; [done|]. unfold tally in *. csimpl.
  unfold flying at 1 3. destruct (in_flight x); lia.
Qed.

(** X11: in every run, cancelled or not, the requests issued whose Result
    has not been pushed yet are never more than C, one per worker at most;
    no worker issues more requests than its share; and no more than N
    requests are issued in all. *)
Theorem concurrency_bounded (b : Work.t) (t0 : Duration) (h : heap)
    (tr : list event) (s : state) :
  fresh b -> 0 <= Work.N b <= max_int -> 1 <= Work.C b <= max_int ->
  reaches (initial b t0 h) tr s ->
  0 <= tally is_request tr - tally is_result tr <= Work.C b /\
  tally is_request tr - tally is_result tr = tally flying (st_pool s) /\
  Z.of_nat (length (st_pool s)) <= Work.C b /\
  (forall w wk, st_pool s !! w = Some wk -> 0 <= started wk <= w_n wk) /\
  tally is_request tr <= Work.N b.
Proof.
  intros Hf HN HC Hr.
  destruct (reaches_Inv b Hf HN HC t0 h tr s Hr)
    as [_ _ Hlen Hsum Hspawn _ _ Hwk _ _ _ _ Hres Hreq _ _ _ _].
  assert (Hst : tally started (st_pool s)
                = tally w_i (st_pool s) + tally flying (st_pool s))
    by (rewrite <- tally_plus; done).
  pose proof (flying_le_length (st_pool s)) as Hfl.
  assert (HlenC : Z.of_nat (length (st_pool s)) <= Work.C b).
  { rewrite Hlen. destruct (st_ctl s); simpl in *; lia. }
  assert (Hone : forall wk, wf_worker wk -> 0 <= started wk <= w_n wk).
  { intros wk (Hi & _ & Hit). unfold started, in_flight, in_iteration in *.
    destruct (w_pc wk); try specialize (Hit eq_refl); lia. }
  assert (Hle : tally started (st_pool s) <= tally w_n (st_pool s)).
  { apply tally_le. eapply Forall_impl; [exact Hwk|]. intros wk Hw.
    apply (Hone wk Hw). }
  assert (Hun : 0 <= undistributed (Work.N b) (st_ctl s)).
  { destruct (st_ctl s); simpl in *; lia. }
  split; [lia|]. split; [lia|]. split; [done|]. split; [|lia].
  intros w wk Hl. apply Hone. by apply (Forall_lookup_1 _ _ _ _ Hwk Hl).
Qed.

(** ** The end of Run *)

(** X12: when Run returns, C workers have been started and every one of
    them has left runWorker and called wg.Done, the WaitGroup counter is
    back at zero, the results channel is closed, and b.start still holds
    the stamp that Run took. *)
Theorem Run_returns (b : Work.t) (t0 : Duration) (h : heap)
    (tr : list event) (s : state) :
  fresh b -> 0 <= Work.N b <= max_int -> 1 <= Work.C b <= max_int ->
  reaches (initial b t0 h) tr s -> st_ctl s = CEnd ->
  Z.of_nat (length (st_pool s)) = Work.C b /\
  (forall w wk, st_pool s !! w = Some wk -> w_pc wk = WExit) /\
  zsum (w_n <$> st_pool s) = Work.N b /\
  st_wg s = 0 /\
  (exists ch, Work.results (st_b s) = Some ch /\ ch_closed ch = true) /\
  run_start tr = Some (Work.start (st_b s)).
Proof.
  intros Hf HN HC Hr Hend.
  pose proof (reaches_Inv b Hf HN HC t0 h tr s Hr) as HI.
  destruct HI as [_ _ Hlen Hsum _ Hwg Hwaited _ _ Hchan _ _ _ _ _ _ _ _].
  rewrite Hend in *. simpl in *. specialize (Hwaited eq_refl).
  split; [done|]. split.
  { intros w wk Hl. pose proof (pending_le _ _ _ Hl) as Hp.
    rewrite Hwaited in Hp. unfold pending in Hp. destruct (w_pc wk); try done; lia. }
  split; [unfold tally in Hsum; lia|]. split; [lia|]. split.
  { destruct (Work.results (st_b s)) as [ch|]; [|done].
    exists ch. by destruct Hchan as (_ & _ & ->). }
  clear Hlen Hsum Hwg Hwaited Hchan.
  enough (stamped (st_ctl s) = true -> run_start tr = Some (Work.start (st_b s)))
    as H2 by (rewrite Hend in H2; by apply H2).
  clear Hend. induction Hr as [|tr s a e s' _ IH Hs]; [done|].
  unfold run_start in *. rewrite foldl_app. simpl.
  destruct s as [b1 ctl done now hp cl wg pool crashed].
  step_cases Hs; simpl in *; try done; auto.
  all: unfold Init in *; repeat (case_match; simplify_eq); simpl in *; auto.
Qed.

(** ** The period of the throttle *)

Lemma all_from_spec fuel p : forall q0 q,
  all_from fuel q0 p = true -> q0 <= q < q0 + Z.of_nat fuel -> p q = true.
Proof.
  induction fuel as [|fuel IH]; intros q0 q H Hq; [lia|].
  simpl in H. apply andb_true_iff in H as [H1 H2].
  destruct (decide (q = q0)) as [->|Hne]; [done|].
  apply (IH (q0 + 1)); [done|lia].
Qed.

(** X13: for every whole number of queries per second from 1 to 10000,
    the throttle of a worker is a ticker (not the nil channel) of period
    1000000 / QPS microseconds, the quotient rounded down. *)
Theorem throttle_whole_qps (b : Work.t) (q : Z) :
  1 <= q <= 10000 -> Work.QPS b = f64_of_Z q ->
  throttle_period (Work.QPS b) = 1000000 / q * Microsecond /\
  0 < 1000000 / q * Microsecond /\
  new_throttle b = Some (1000000 / q * Microsecond).
Proof.
  intros Hq HQ.
  assert (Hall : all_from (Z.to_nat 10000) 1 period_ok = true)
    by (vm_compute; reflexivity).
  pose proof (all_from_spec _ _ 1 q Hall ltac:(lia)) as Hp.
  unfold period_ok in Hp. apply andb_true_iff in Hp as [Hpos Hper].
  apply Z.eqb_eq in Hper.
  assert (Hdiv : 100 <= 1000000 / q).
  { apply Z.div_le_lower_bound; lia. }
  assert (0 < 1000000 / q * Microsecond) by (unfold Microsecond; lia).
  unfold new_throttle, time_Tick. rewrite HQ, Hpos, Hper.
  split; [done|]. split; [done|].
  destruct (Z.leb_spec (1000000 / q * Microsecond) 0); [lia|done].
Qed.

Lemma throttle_whole_qps_witness :
  let b := demo_job 1 1 (f64_of_Z 3) false in
  throttle_period (Work.QPS b) = 1000000 / 3 * Microsecond /\
  0 < 1000000 / 3 * Microsecond /\
  new_throttle b = Some (1000000 / 3 * Microsecond).
Proof.
  intros b. apply (throttle_whole_qps b 3); [lia|reflexivity].
Defined.

(** ** cloneRequest: what is copied *)

(** X14: the clone is a shallow copy of the struct and a deep copy of the
    header: method, URL and host are the template's, the header is a new
    map with the template's entries, and the maps that were there before
    are not touched. *)
Theorem cloneRequest_copy (r : http_Request) (body : list Byte.byte) (h : heap) :
  let '(r2, h') := cloneRequest r body h in
  Method r2 = Method r /\ URL r2 = URL r /\ Host r2 = Host r /\
  Header r2 = Some (length (h_headers h)) /\
  h_headers h !! length (h_headers h) = None /\
  header_at h' (Header r2) = header_at h (Header r) /\
  (forall l, (l < length (h_headers h))%nat -> h_headers h' !! l = h_headers h !! l).
Proof.
  pose proof (cloneRequest_header r body h) as H.
  unfold cloneRequest in *. rewrite copy_header in *. simpl in *.
  destruct (0 <? length body)%nat; simpl in *.
  all: destruct H as (H1 & H2 & H3).
  all: split; [done|]; split; [done|]; split; [done|]; split; [done|].
  all: split; [apply lookup_ge_None; lia|]; split; done.
Qed.

(** ** Runs of the small job *)

Lemma run_eq acts s :
  is_Some (run acts s) -> run acts s = Some (run_trace acts s, run_state acts s).
Proof. intros [[tr s'] H]. unfold run_trace, run_state. by rewrite H. Qed.


(** X2: once the C workers are started, the w-th worker started holds the
    w-th share of the share computation: runWorkers hands the shares out
    in order, the remainder to the last worker. *)
Theorem pool_shares (b : Work.t) (t0 : Duration) (h : heap)
    (tr : list event) (s : state) :
  fresh b -> 0 <= Work.N b <= max_int -> 1 <= Work.C b <= max_int ->
  reaches (initial b t0 h) tr s ->
  Z.of_nat (length (st_pool s)) = Work.C b ->
  w_n <$> st_pool s = shares (Work.N b) (Work.C b).
Proof.
  intros Hf HN HC Hr Hlen.
  pose proof (reaches_shares b t0 h tr s Hf HN HC Hr) as Hs.
  destruct (reaches_Inv b Hf HN HC t0 h tr s Hr)
    as [_ _ Hl _ Hsp _ _ _ _ _ _ _ _ _ _ _ _ _].
  unfold shares_so_far in Hs. rewrite Hlen in Hl.
  destruct (st_ctl s); simpl in *; try done; lia.
Qed.

Lemma pool_shares_witness :
  let b := demo_job 7 3 f64_zero false in
  let s := run_state sched_spawn_three (initial b 0 empty_heap) in
  w_n <$> st_pool s = shares (Work.N b) (Work.C b).
Proof.
  intros b s.
  apply (pool_shares b 0 empty_heap
           (run_trace sched_spawn_three (initial b 0 empty_heap)) s).
  - by repeat split.
  - simpl. unfold max_int. lia.
  - simpl. unfold max_int. lia.
  - apply run_ok_reaches. vm_compute. eauto.
  - vm_compute. reflexivity.
Defined.

Example three_workers :
  w_n <$> st_pool (run_state sched_spawn_three
                     (initial (demo_job 7 3 f64_zero false) 0 empty_heap))
  = [2; 2; 3].
Proof. vm_compute. reflexivity. Qed.

Lemma results_buffer_bounded_witness :
  let b := demo_job 1 1 f64_zero false in
  let acts := sched_spawn_one ++ [Worker 0; Worker 0; Worker 0; Worker 0; Clock 2;
                                  Network 0 [] (Resp 200 3); Worker 0] in
  let s := run_state acts (initial b 5 empty_heap) in
  let ch := {| ch_cap := 1000;
               ch_buf := [makeRequest_result 5 [] (Resp 200 3) 7];
               ch_closed := false |} in
  ch_cap ch = min (int_mul (Work.C b) 1000) maxResult /\
  Z.of_nat (length (ch_buf ch)) <= ch_cap ch /\ ch_cap ch <= 32000000 /\
  (forall w wk r, st_pool s !! w = Some wk -> w_pc wk = WSend r ->
     ch_closed ch = false -> Z.of_nat (length (ch_buf ch)) = ch_cap ch ->
     0 < ch_cap ch -> step (Worker w) s = None).
Proof.
  intros b acts s ch.
  apply (results_buffer_bounded b 5 empty_heap
           (run_trace acts (initial b 5 empty_heap)) s ch).
  - by repeat split.
  - apply run_ok_reaches. vm_compute. eauto.
  - vm_compute. reflexivity.
Defined.



(** Worker 0 has passed its select when the context is cancelled: it makes
    that one request, and at the head of the next iteration it returns. *)
Lemma requests_after_cancel_witness :
  let b := demo_job 2 1 f64_zero false in
  let s1 := run_state (sched_spawn_one ++ [Worker 0; Worker 0; Worker 0; CtxCancel])
                      (initial b 5 empty_heap) in
  let acts := [Worker 0; Clock 2; Network 0 [] (Resp 200 3); Worker 0; Worker 0] in
  st_ctx_done (run_state acts s1) = true /\
  tally is_request (run_trace acts s1) + tally past_check (st_pool (run_state acts s1))
    <= tally past_check (st_pool s1) /\
  tally is_request (run_trace acts s1) <= Z.of_nat (length (st_pool s1)).
Proof.
  intros b s1 acts.
  apply (requests_after_cancel s1 (run_trace acts s1) (run_state acts s1)).
  - vm_compute. reflexivity.
  - apply run_ok_reaches. vm_compute. eauto.
Defined.

Example one_request_after_cancel :
  let b := demo_job 2 1 f64_zero false in
  let s1 := run_state (sched_spawn_one ++ [Worker 0; Worker 0; Worker 0; CtxCancel])
                      (initial b 5 empty_heap) in
  let acts := [Worker 0; Clock 2; Network 0 [] (Resp 200 3); Worker 0; Worker 0] in
  tally is_request (run_trace acts s1) = 1 /\
  last (run_trace acts s1) = Some (EvReturn 0 true).
Proof. vm_compute. done. Qed.

Lemma durations_within_total_witness :
  let b := demo_job 1 1 f64_zero false in
  let acts := sched_one (Resp 200 3) in
  let tr := run_trace acts (initial b 5 empty_heap) in
  let s := run_state acts (initial b 5 empty_heap) in
  st_now s = 5 + elapsed acts /\
  (forall r, r ∈ pushed tr ->
     Work.start (st_b s) <= offset r /\ 0 <= duration r /\
     offset r + duration r <= st_now s) /\
  (forall total r, total ∈ totals tr -> r ∈ pushed tr ->
     0 <= duration r <= total /\
     offset r + duration r <= Work.start (st_b s) + total).
Proof.
  intros b acts tr s.
  apply (durations_within_total b 5 empty_heap acts tr s).
  - by repeat split.
  - simpl. unfold max_int. lia.
  - simpl. unfold max_int. lia.
  - lia.
  - vm_compute. discriminate.
  - apply run_eq. vm_compute. eauto.
Defined.

Example durations_of_demo_run :
  let tr := run_trace (sched_one (Resp 200 3))
                      (initial (demo_job 1 1 f64_zero false) 5 empty_heap) in
  (fun r => (offset r, duration r)) <$> pushed tr = [(5, 2)] /\ totals tr = [2].
Proof. vm_compute. done. Qed.

Lemma concurrency_bounded_witness :
  let b := demo_job 7 3 f64_zero false in
  let acts := sched_spawn_three ++ [Worker 0; Worker 0; Worker 0; Worker 0;
                                    Worker 2; Worker 2; Worker 2; Worker 2] in
  let tr := run_trace acts (initial b 0 empty_heap) in
  let s := run_state acts (initial b 0 empty_heap) in
  0 <= tally is_request tr - tally is_result tr <= Work.C b /\
  tally is_request tr - tally is_result tr = tally flying (st_pool s) /\
  Z.of_nat (length (st_pool s)) <= Work.C b /\
  (forall w wk, st_pool s !! w = Some wk -> 0 <= started wk <= w_n wk) /\
  tally is_request tr <= Work.N b.
Proof.
  intros b acts tr s.
  apply (concurrency_bounded b 0 empty_heap tr s).
  - by repeat split.
  - simpl. unfold max_int. lia.
  - simpl. unfold max_int. lia.
  - apply run_ok_reaches. vm_compute. eauto.
Defined.

Example two_in_flight :
  let b := demo_job 7 3 f64_zero false in
  let acts := sched_spawn_three ++ [Worker 0; Worker 0; Worker 0; Worker 0;
                                    Worker 2; Worker 2; Worker 2; Worker 2] in
  tally flying (st_pool (run_state acts (initial b 0 empty_heap))) = 2.
Proof. vm_compute. reflexivity. Qed.

Lemma Run_returns_witness :
  let b := demo_job 1 1 f64_zero false in
  let tr := run_trace (sched_one (Resp 200 3)) (initial b 5 empty_heap) in
  let s := run_state (sched_one (Resp 200 3)) (initial b 5 empty_heap) in
  Z.of_nat (length (st_pool s)) = Work.C b /\
  (forall w wk, st_pool s !! w = Some wk -> w_pc wk = WExit) /\
  zsum (w_n <$> st_pool s) = Work.N b /\
  st_wg s = 0 /\
  (exists ch, Work.results (st_b s) = Some ch /\ ch_closed ch = true) /\
  run_start tr = Some (Work.start (st_b s)).
Proof.
  intros b tr s. apply (Run_returns b 5 empty_heap tr s).
  - by repeat split.
  - simpl. unfold max_int. lia.
  - simpl. unfold max_int. lia.
  - apply run_ok_reaches. vm_compute. eauto.
  - vm_compute. reflexivity.
Defined.

(** ** The throttle and the requests *)

(** X15: with QPS > 0 every request has been let through by a tick of its
    worker's throttle: the ticks received are the requests issued plus the
    workers that are between the tick and the call.  With QPS <= 0 (or not
    a number) no worker ever waits for a tick. *)
Theorem throttle_gates_requests (b : Work.t) (t0 : Duration) (h : heap)
    (tr : list event) (s : state) :
  reaches (initial b t0 h) tr s ->
  (f64_ltb f64_zero (Work.QPS b) = true ->
     tally is_tick tr = tally is_request tr + tally at_call (st_pool s)) /\
  (f64_ltb f64_zero (Work.QPS b) = false ->
     tally is_tick tr = 0 /\ tally at_gate (st_pool s) = 0).
Proof.
  intros Hr.
  induction Hr as [|tr s a e s' Hr [IH1 IH2] Hs]; [done|].
  pose proof (f_equal Work.QPS (reaches_job _ _ _ Hr)) as Hq. simpl in Hq.
  pose proof (reaches_throttle _ _ _ _ _ Hr) as Hth.
  rewrite !tally_snoc.
  destruct s as [b1 ctl done now hp cl wg pool crashed].
  step_cases Hs; simpl in *; subst; simpl in *.
  all: try match goal with
       | Hl : _ !! ?w = Some ?wk |- _ => destruct (Hth w wk Hl) as [_ Hg]
       end.
  all: tally_rw; unfold at_call, at_gate, new_worker, next_iteration, with_pc in *;
       simpl in *.
  all: repeat match goal with E : w_pc ?x = _ |- _ => rewrite E in * end.
  all: split; intros Hpos; rewrite ?Hq in *;
       try (specialize (IH1 Hpos)); try (specialize (IH2 Hpos));
       try (specialize (Hg eq_refl)); try congruence; try lia.
Qed.

Lemma throttle_gates_requests_witness :
  let b := demo_job 1 1 (f64_of_Z 3) false in
  let acts := sched_spawn_one ++ [Worker 0; Worker 0; Worker 0; Worker 0; Worker 0] in
  let tr := run_trace acts (initial b 5 empty_heap) in
  let s := run_state acts (initial b 5 empty_heap) in
  (f64_ltb f64_zero (Work.QPS b) = true ->
     tally is_tick tr = tally is_request tr + tally at_call (st_pool s)) /\
  (f64_ltb f64_zero (Work.QPS b) = false ->
     tally is_tick tr = 0 /\ tally at_gate (st_pool s) = 0).
Proof.
  intros b acts tr s.
  apply (throttle_gates_requests b 5 empty_heap tr s).
  apply run_ok_reaches. vm_compute. eauto.
Defined.

Example tick_then_request :
  let b := demo_job 1 1 (f64_of_Z 3) false in
  let acts := sched_spawn_one ++ [Worker 0; Worker 0; Worker 0; Worker 0; Worker 0] in
  drop 6 (run_trace acts (initial b 5 empty_heap))
  = [EvThrottle 0 (Some 333333000); EvKeepRedirects 0; EvProceed 0; EvTick 0;
     EvRequest 0 5].
Proof. vm_compute. reflexivity. Qed.

(** ** Run ends, cancelled or not *)



